(** * host_list.py: hosts attached to an Arista leaf pair

    A shallow embedding of [src/host_list.py] and the properties of its
    reconciliation pipeline: address-table filtering, the local / routed
    partition of MAC addresses, the two ARP indexes, the resolution loops,
    the numeric sort of the resolved addresses and the two report files.

    Conventions of the embedding.
    - A Python [str] is a [string]; its characters are the code points
      below 256, where the regular expression class [\d] is exactly
      ['0'..'9'].
    - A Python [int] is a [Z]; [str(n)] is stdpp's [pretty].
    - A Python [dict] is an association list in insertion order with
      distinct keys ([Dict]); iteration, [keys()], [values()] and
      [items()] follow that order.
    - A raised exception is the [Raise] case of [result]; a script that
      raises stops there, and what it wrote to its files before stays. *)

From Stdlib Require Import ZArith NArith String Ascii List Sorting Permutation Lia.
From stdpp Require Import base decidable option list strings pretty gmap sorting.

Local Open Scope string_scope.
Local Open Scope Z_scope.
Local Open Scope list_scope.

(** ** Exceptions and results *)

Inductive exn : Type :=
  | IndexError            (* str.format: replacement index out of range *)
  | AddressValueError     (* ipaddress.IPv4Address *)
  | ConnectionError       (* pyeapi: device unreachable, login refused *)
  | CommandError          (* pyeapi: command rejected by the device *)
  | herror                (* socket.gethostbyaddr: unknown host *)
  | gaierror              (* socket.gethostbyaddr: address not usable *)
  | timeout               (* socket.timeout *)
  | UnicodeError.         (* malformed name in the resolver's reply *)

Inductive result (A : Type) : Type :=
  | Ok (a : A)
  | Raise (e : exn).
Arguments Ok {A} a.
Arguments Raise {A} e.

#[global] Instance result_ret : MRet result := λ A a, Ok a.
#[global] Instance result_bind : MBind result := λ A B f m,
  match m with
  | Ok a => f a
  | Raise e => Raise e
  end.

(** ** Python strings *)

Module PyStr.

Definition newline : ascii := ascii_of_nat 10.

(** [s.split(sep)] for a separator of one character. *)
Fixpoint split (sep : ascii) (s : string) : list string :=
  match s with
  | EmptyString => [EmptyString]
  | String c r =>
      if Ascii.eqb c sep then EmptyString :: split sep r
      else match split sep r with
           | h :: t => String c h :: t
           | [] => [String c EmptyString]
           end
  end.

(** [sep.join(l)] *)
Fixpoint join (sep : string) (l : list string) : string :=
  match l with
  | [] => ""
  | [x] => x
  | x :: r => x +:+ sep +:+ join sep r
  end.

(** [c in s] for a character *)
Fixpoint has_char (c : ascii) (s : string) : bool :=
  match s with
  | EmptyString => false
  | String c' r => (Ascii.eqb c' c || has_char c r)%bool
  end.

Definition is_digit (c : ascii) : bool :=
  let n := nat_of_ascii c in (Nat.leb 48 n && Nat.leb n 57)%bool.

(** [s in l] for a list of strings *)
Definition mem (s : string) (l : list string) : bool :=
  existsb (String.eqb s) l.

(** ['{}{}.{}{}.{}{}'.format( *parts )]: the first six positional
    arguments are used, any further ones ignored, and a missing one
    raises IndexError. *)
Definition format_mac (parts : list string) : result string :=
  match parts with
  | g0 :: g1 :: g2 :: g3 :: g4 :: g5 :: _ =>
      Ok (g0 +:+ g1 +:+ "." +:+ g2 +:+ g3 +:+ "." +:+ g4 +:+ g5)
  | _ => Raise IndexError
  end.

End PyStr.

(** ** Regular expressions

    The fragment of Python's [re] that the script uses, with a backtracking
    matcher in continuation-passing style.  A position is an index into the
    subject; the continuation receives the position after the match. *)

Module Re.

Inductive regex : Type :=
  | Eps                               (* the empty pattern *)
  | Lit (c : ascii)                   (* a literal character *)
  | Any                               (* .  any character but a newline *)
  | Digit                             (* \d *)
  | Cat (r1 r2 : regex)
  | Or (r1 r2 : regex)                (* r1|r2 *)
  | Star (r : regex)                  (* r* *)
  | Rep (lo hi : nat) (r : regex)     (* r{lo,hi} *)
  | NotAhead (r : regex)              (* (?!r) *)
  | NotBehind (w : nat) (r : regex)   (* (?<!r), r of fixed width w *)
  | Bos                               (* ^ *)
  | Eos.                              (* $ *)

(** a literal string *)
Fixpoint lits (s : string) : regex :=
  match s with
  | EmptyString => Eps
  | String c r => Cat (Lit c) (lits r)
  end.

(** [$] without MULTILINE: the end of the subject, or just before a
    newline that is its last character. *)
Definition at_end (s : string) (i : nat) : bool :=
  (Nat.eqb i (String.length s)
   || (Nat.eqb (S i) (String.length s)
       && match String.get i s with
          | Some c => Ascii.eqb c PyStr.newline
          | None => false
          end))%bool.

Fixpoint rmatch (r : regex) (s : string) (i : nat) (k : nat → bool) : bool :=
  match r with
  | Eps => k i
  | Lit c =>
      match String.get i s with
      | Some c' => if Ascii.eqb c c' then k (S i) else false
      | None => false
      end
  | Any =>
      match String.get i s with
      | Some c' => if Ascii.eqb c' PyStr.newline then false else k (S i)
      | None => false
      end
  | Digit =>
      match String.get i s with
      | Some c' => if PyStr.is_digit c' then k (S i) else false
      | None => false
      end
  | Cat r1 r2 => rmatch r1 s i (λ j, rmatch r2 s j k)
  | Or r1 r2 => (rmatch r1 s i k || rmatch r2 s i k)%bool
  | Star r1 =>
      (fix loop (fuel : nat) (i : nat) : bool :=
         match fuel with
         | O => k i
         | S f =>
             (rmatch r1 s i (λ j, if Nat.ltb i j then loop f j else false)
              || k i)%bool
         end) (String.length s - i)%nat i
  | Rep lo hi r1 =>
      (fix loop (lo hi : nat) (i : nat) : bool :=
         match hi with
         | O => if Nat.eqb lo 0 then k i else false
         | S hi' =>
             (rmatch r1 s i (λ j, loop (Nat.pred lo) hi' j)
              || (if Nat.eqb lo 0 then k i else false))%bool
         end) lo hi i
  | NotAhead r1 => if rmatch r1 s i (λ _, true) then false else k i
  | NotBehind w r1 =>
      if (Nat.leb w i && rmatch r1 s (i - w)%nat (λ j, Nat.eqb j i))%bool
      then false else k i
  | Bos => if Nat.eqb i 0 then k i else false
  | Eos => if at_end s i then k i else false
  end.

(** [re.match(pattern, string)], as a truth value *)
Definition re_match (pattern : regex) (s : string) : bool :=
  rmatch pattern s 0%nat (λ _, true).

(** [r'^((?!Vx|Ro).)*$'] *)
Definition not_Vx_Ro : regex :=
  Cat Bos (Cat (Star (Cat (NotAhead (Or (lits "Vx") (lits "Ro"))) Any)) Eos).

(** [r'^((?!st).)*$'] *)
Definition not_st : regex :=
  Cat Bos (Cat (Star (Cat (NotAhead (lits "st")) Any)) Eos).

(** [409(3|4)] *)
Definition peering : regex := Cat (lits "409") (Or (Lit "3") (Lit "4")).

(** [r'^Vlan\d{1,4}(?<!409(3|4))$'] *)
Definition vlan_interface : regex :=
  Cat Bos (Cat (lits "Vlan")
               (Cat (Rep 1 4 Digit) (Cat (NotBehind 4 peering) Eos))).

(** [r'^(?!1$)\d{1,4}(?<!409(3|4))$'] *)
Definition vlan_number : regex :=
  Cat Bos (Cat (NotAhead (Cat (Lit "1") Eos))
               (Cat (Rep 1 4 Digit) (Cat (NotBehind 4 peering) Eos))).

End Re.

(** ** Python dictionaries, in insertion order *)

Module Dict.
Section Dict.
Context {V : Type}.

Definition t : Type := list (string * V).

Definition empty : t := [].

(** [d[k] = v]: a key already present keeps its place. *)
Fixpoint set (k : string) (v : V) (d : t) : t :=
  match d with
  | [] => [(k, v)]
  | (k', v') :: r =>
      if String.eqb k k' then (k, v) :: r else (k', v') :: set k v r
  end.

Fixpoint get (d : t) (k : string) : option V :=
  match d with
  | [] => None
  | (k', v') :: r => if String.eqb k k' then Some v' else get r k
  end.

Definition keys (d : t) : list string := map fst d.
Definition values (d : t) : list V := map snd d.
Definition items (d : t) : list (string * V) := d.

(** [{key(x): value(x) for x in l}] continued from [d] *)
Definition comprehension {A} (key : A → string) (value : A → V)
    (l : list A) (d : t) : t :=
  fold_left (λ d x, set (key x) (value x) d) l d.
End Dict.
Arguments t : clear implicits.
End Dict.

(** ** ipaddress.IPv4Address, as far as the sort key needs it *)

Module IPv4.

Fixpoint digits_value (s : string) (acc : N) : N :=
  match s with
  | EmptyString => acc
  | String c r => digits_value r (10 * acc + (N_of_ascii c - 48))%N
  end.

Fixpoint all_digits (s : string) : bool :=
  match s with
  | EmptyString => true
  | String c r => (PyStr.is_digit c && all_digits r)%bool
  end.

(** [_parse_octet]: one to three ASCII digits, no leading zero but for
    "0" itself, at most 255. *)
Definition parse_octet (octet_str : string) : result N :=
  match octet_str with
  | EmptyString => Raise AddressValueError
  | String c r =>
      if negb (all_digits octet_str) then Raise AddressValueError
      else if Nat.ltb 3 (String.length octet_str) then Raise AddressValueError
      else if (negb (String.eqb octet_str "0") && Ascii.eqb c "0")%bool
      then Raise AddressValueError
      else let octet_int := digits_value octet_str 0 in
           if (255 <? octet_int)%N then Raise AddressValueError
           else Ok octet_int
  end.

(** [_ip_int_from_string]: four octets, big-endian. *)
Definition ip_int_from_string (ip_str : string) : result N :=
  match PyStr.split "." ip_str with
  | [o1; o2; o3; o4] =>
      a ← parse_octet o1; b ← parse_octet o2;
      c ← parse_octet o3; d ← parse_octet o4;
      Ok (((a * 256 + b) * 256 + c) * 256 + d)%N
  | _ => Raise AddressValueError
  end.

End IPv4.

(** ** sorted(l, key=...)

    The keys are computed first, one call per element and in order, so the
    first element whose key raises aborts the sort.  The elements are then
    arranged by a stable sort; insertion into a sorted tail is one. *)

Module Sorted.
Section Sorted.
Context {A : Type}.

Fixpoint decorate (key : A → result N) (l : list A) : result (list (N * A)) :=
  match l with
  | [] => Ok []
  | x :: r => k ← key x; dr ← decorate key r; Ok ((k, x) :: dr)
  end.

Fixpoint insert (x : N * A) (l : list (N * A)) : list (N * A) :=
  match l with
  | [] => [x]
  | y :: r => if (fst x <=? fst y)%N then x :: l else y :: insert x r
  end.

Fixpoint sort (l : list (N * A)) : list (N * A) :=
  match l with
  | [] => []
  | x :: r => insert x (sort r)
  end.

Definition sorted (key : A → result N) (l : list A) : result (list A) :=
  dl ← decorate key l; Ok (map snd (sort dl)).
End Sorted.
End Sorted.

(** ** The files the script appends to *)

Module Fs.

(** file name ↦ the chunks written to it so far, oldest first *)
Definition t : Type := gmap string (list string).

Definition content (name : string) (files : t) : list string :=
  default [] (files !! name).

(** [open(name, 'a')]: creates the file when it is missing *)
Definition open_append (name : string) (files : t) : t :=
  <[name := content name files]> files.

(** [with open(name, 'a') as f: f.write(text)] *)
Definition append (name : string) (text : string) (files : t) : t :=
  <[name := content name files ++ [text]]> files.

End Fs.

(** ** The device replies the script reads *)

(** a row of [show mac address-table] *)
Record mac_entry : Type := {
  macAddress : string;
  interface : string;
  vlanId : Z;
  entryType : string
}.

(** an entry of [show ip interface] *)
Record ip_interface : Type := { lineProtocolStatus : string }.

(** a row of [show arp] *)
Record neighbor : Type := { address : string; hwAddress : string }.

(** one VRF of [show arp vrf all interface vlanN] *)
Record vrf_arp : Type := {
  dynamicEntries : Z;
  ipV4Neighbors : list neighbor
}.

(** the replies of the leaf, lines 55 to 59 *)
Record leaf_replies : Type := {
  show_macs : list mac_entry;             (* [0]['unicastTable']['tableEntries'] *)
  interfaces : Dict.t ip_interface;       (* [0]['interfaces'] *)
  leaf_arp : list neighbor;               (* [0]['ipV4Neighbors'] *)
  show_vlans : list string;               (* [0]['vlans'].keys() *)
  hostname : string                       (* [0]['hostname'] *)
}.

(** the value [{'interface': ..., 'vlanId': ...}] kept per MAC address *)
Record mac_info : Type := { info_interface : string; info_vlanId : Z }.

#[global] Instance mac_entry_eq_dec : EqDecision mac_entry.
Proof. solve_decision. Defined.
#[global] Instance neighbor_eq_dec : EqDecision neighbor.
Proof. solve_decision. Defined.
#[global] Instance mac_info_eq_dec : EqDecision mac_info.
Proof. solve_decision. Defined.

(** ** The script *)

Module HostList.

Definition nl : string := String PyStr.newline EmptyString.

(** lines 67-73 *)
Definition macadds (show_macs : list mac_entry) : list mac_entry :=
  List.filter
    (λ macs, Re.re_match Re.not_Vx_Ro (interface macs)
             && Re.re_match Re.not_st (entryType macs))
    show_macs.

(** [interfaces[vlan]['lineProtocolStatus'] == 'up'] *)
Definition line_up (interfaces : Dict.t ip_interface) (vlan : string) : bool :=
  match Dict.get interfaces vlan with
  | Some i => String.eqb (lineProtocolStatus i) "up"
  | None => false
  end.

(** lines 78-83 *)
Definition vlan_ints (interfaces : Dict.t ip_interface) : list string :=
  List.filter
    (λ vlan, Re.re_match Re.vlan_interface vlan && line_up interfaces vlan)
    (Dict.keys interfaces).

(** lines 88-93 *)
Definition leaf_vlans (show_vlans : list string) : list string :=
  List.filter (Re.re_match Re.vlan_number) show_vlans.

(** lines 96-102 *)
Definition local_vlans (leaf_vlans vlan_ints : list string) : list string :=
  List.filter (λ vlan, PyStr.mem ("Vlan" +:+ vlan) vlan_ints) leaf_vlans.

(** lines 104-110 *)
Definition router_vlans (leaf_vlans vlan_ints : list string) : list string :=
  List.filter (λ vlan, negb (PyStr.mem ("Vlan" +:+ vlan) vlan_ints)) leaf_vlans.

(** ['{}{}.{}{}.{}{}'.format( *macAddress.split(':'))] *)
Definition format_address (macAddress : string) : result string :=
  PyStr.format_mac (PyStr.split ":" macAddress).

(** the key of a row in [local_macs] and [routed_macs] *)
Definition mac_key (mac : mac_entry) : result string :=
  format_address (macAddress mac).

Definition mac_value (mac : mac_entry) : mac_info :=
  {| info_interface := interface mac; info_vlanId := vlanId mac |}.

(** ['Vlan' + str(mac['vlanId']) in vlan_ints] *)
Definition is_local (vlan_ints : list string) (mac : mac_entry) : bool :=
  PyStr.mem ("Vlan" +:+ pretty (vlanId mac)) vlan_ints.

(** The dictionary comprehension of lines 115-124 and 126-135: the key
    is formatted only for the rows that pass the condition. *)
Fixpoint mac_dict (cond : mac_entry → bool) (macadds : list mac_entry)
    (d : Dict.t mac_info) : result (Dict.t mac_info) :=
  match macadds with
  | [] => Ok d
  | mac :: rest =>
      if cond mac
      then key ← mac_key mac; mac_dict cond rest (Dict.set key (mac_value mac) d)
      else mac_dict cond rest d
  end.

Definition local_macs (macadds : list mac_entry) (vlan_ints : list string)
    : result (Dict.t mac_info) :=
  mac_dict (is_local vlan_ints) macadds Dict.empty.

Definition routed_macs (macadds : list mac_entry) (vlan_ints : list string)
    : result (Dict.t mac_info) :=
  mac_dict (λ mac, negb (is_local vlan_ints mac)) macadds Dict.empty.

(** [{entry['address']: entry['hwAddress'] for entry in rows}], into [d] *)
Definition arp_index (rows : list neighbor) (d : Dict.t string) : Dict.t string :=
  Dict.comprehension address hwAddress rows d.

(** lines 139-144 *)
Definition arp_dict (arp_elem : list neighbor) : Dict.t string :=
  arp_index arp_elem Dict.empty.

Definition noip_file (hostname : string) : string := hostname +:+ "-noip.txt".
Definition ip_file (hostname : string) : string := hostname +:+ "-ip.txt".

Definition noip_line (mac : string) (info : mac_info) : string :=
  "MAC Address: " +:+ mac +:+ " in VLAN: " +:+ pretty (info_vlanId info)
  +:+ " on port " +:+ info_interface info
  +:+ " does not resolve to an IP address" +:+ nl.

(** [[key for key, value in arp.items() if value == mac]] *)
Definition ipadd (arp : Dict.t string) (mac : string) : list string :=
  map fst (List.filter (λ kv, String.eqb (snd kv) mac) (Dict.items arp)).

(** The state the two resolution loops work on: the files and [ip_addrs]. *)
Definition state : Type := Fs.t * list string.

(** One round of the loops of lines 150-157 and 173-180. *)
Definition resolve_mac (hostname : string) (arp : Dict.t string)
    (st : state) (item : string * mac_info) : state :=
  let '(mac, info) := item in
  if negb (PyStr.mem mac (Dict.values arp))
  then (Fs.append (noip_file hostname) (noip_line mac info) st.1, st.2)
  else (st.1, st.2 ++ ipadd arp mac).

(** [for mac in macs: ...], where [macs[mac]] is the value of the item
    the loop is at. *)
Definition resolve (hostname : string) (macs : Dict.t mac_info)
    (arp : Dict.t string) (st : state) : state :=
  fold_left (resolve_mac hostname arp) (Dict.items macs) st.

Definition show_arp_command (vlan : string) : string :=
  "show arp vrf all interface vlan" +:+ vlan.

(** lines 165-167, for one VRF of a reply *)
Definition collect_vrf (d : Dict.t string) (vrf : vrf_arp) : Dict.t string :=
  if 0 <? dynamicEntries vrf then arp_index (ipV4Neighbors vrf) d else d.

(** lines 162-167: [router] is [router.run_commands], giving
    [show_arp[0]['vrfs']] or raising. *)
Fixpoint router_arp (router : string → result (Dict.t vrf_arp))
    (vlans : list string) (d : Dict.t string) : result (Dict.t string) :=
  match vlans with
  | [] => Ok d
  | vlan :: rest =>
      vrfs ← router (show_arp_command vlan);
      router_arp router rest (fold_left collect_vrf (Dict.values vrfs) d)
  end.

(** line 184 *)
Definition sorted_ips (ip_addrs : list string) : result (list string) :=
  Sorted.sorted IPv4.ip_int_from_string ip_addrs.

(** lines 188-191: [except Exception] catches whatever the resolver
    raises. *)
Definition name_line (gethostbyaddr : string → result string) (ip : string)
    : string :=
  match gethostbyaddr ip with
  | Ok name => ip +:+ "  " +:+ name +:+ " " +:+ nl
  | Raise _ => ip +:+ " does not resolve in DNS" +:+ nl
  end.

(** lines 186-191 *)
Definition write_names (gethostbyaddr : string → result string)
    (hostname : string) (sorted_ips : list string) (files : Fs.t) : Fs.t :=
  fold_left (λ files ip, Fs.append (ip_file hostname)
                           (name_line gethostbyaddr ip) files)
    sorted_ips (Fs.open_append (ip_file hostname) files).

(** lines 60-180: the two partitions, the two indexes and the two
    resolution loops; the value is [ip_addrs]. *)
Definition collect (leaf : leaf_replies)
    (router : string → result (Dict.t vrf_arp)) (files : Fs.t)
    : result (list string) * Fs.t :=
  let macadds := macadds (show_macs leaf) in
  let vlan_ints := vlan_ints (interfaces leaf) in
  let leaf_vlans := leaf_vlans (show_vlans leaf) in
  let router_vlans := router_vlans leaf_vlans vlan_ints in
  match local_macs macadds vlan_ints with
  | Raise e => (Raise e, files)
  | Ok local_macs =>
  match routed_macs macadds vlan_ints with
  | Raise e => (Raise e, files)
  | Ok routed_macs =>
  let arp_dict := arp_dict (leaf_arp leaf) in
  let st := resolve (hostname leaf) local_macs arp_dict (files, []) in
  match router_arp router router_vlans Dict.empty with
  | Raise e => (Raise e, st.1)
  | Ok router_arp_dict =>
  let st := resolve (hostname leaf) routed_macs router_arp_dict st in
  (Ok st.2, st.1)
  end end end.

(** The script from line 60 on: the outcome and the files it leaves. *)
Definition main (leaf : leaf_replies)
    (router : string → result (Dict.t vrf_arp))
    (gethostbyaddr : string → result string) (files : Fs.t)
    : result unit * Fs.t :=
  match collect leaf router files with
  | (Raise e, files) => (Raise e, files)
  | (Ok ip_addrs, files) =>
      match sorted_ips ip_addrs with
      | Raise e => (Raise e, files)
      | Ok sorted_ips =>
          (Ok (), write_names gethostbyaddr (hostname leaf) sorted_ips files)
      end
  end.

End HostList.

(** ** Notions the properties are stated with *)

(** the last row of a neighbor table that bears the address [a] *)
Definition last_row (a : string) (rows : list neighbor) : option neighbor :=
  List.find (λ r, String.eqb (address r) a) (rev rows).

(** the rows a reply of the router contributes: those of the VRFs that
    report dynamic entries *)
Definition vrf_rows (vrfs : Dict.t vrf_arp) : list neighbor :=
  flat_map (λ vrf, if 0 <? dynamicEntries vrf then ipV4Neighbors vrf else [])
    (Dict.values vrfs).

(** the rows of all replies, in the order of the queries *)
Definition router_rows (router : string → result (Dict.t vrf_arp))
    (vlans : list string) : list neighbor :=
  flat_map (λ vlan, match router (HostList.show_arp_command vlan) with
                    | Ok vrfs => vrf_rows vrfs
                    | Raise _ => []
                    end) vlans.

(** a row of the address table is in a partition when the partition maps
    its formatted address to its interface and VLAN *)
Definition appears_in (d : Dict.t mac_info) (e : mac_entry) : Prop :=
  ∃ k, HostList.mac_key e = Ok k ∧ Dict.get d k = Some (HostList.mac_value e).

(** the row [e] passes the condition of a partition and is formatted to
    the key [k] *)
Definition keyed (cond : mac_entry → bool) (k : string) (e : mac_entry) : bool :=
  cond e && match HostList.mac_key e with
            | Ok k' => String.eqb k' k
            | Raise _ => false
            end.

(** the weaker reading: the partition has the formatted address of the row
    as a key, whatever it maps it to *)
Definition key_in (d : Dict.t mac_info) (e : mac_entry) : Prop :=
  ∃ k, HostList.mac_key e = Ok k ∧ k ∈ Dict.keys d.

(** the Locality mapping has a verdict for the VLAN of a row *)
Definition has_locality (show_vlans : list string) (e : mac_entry) : Prop :=
  pretty (vlanId e) ∈ HostList.leaf_vlans show_vlans.

(** the reply to [show ip interface] has an entry under [Vlan<v>], and its
    [lineProtocolStatus] is the text [up] *)
Definition listed_up (interfaces : Dict.t ip_interface) (v : Z) : Prop :=
  ∃ i, Dict.get interfaces ("Vlan" +:+ pretty v) = Some i
       ∧ lineProtocolStatus i = "up".

(** the lines a resolution loop writes for a partition *)
Definition unresolved_lines (macs : Dict.t mac_info) (arp : Dict.t string)
    : list string :=
  flat_map (λ item, if PyStr.mem item.1 (Dict.values arp) then []
                    else [HostList.noip_line item.1 item.2])
    (Dict.items macs).

(** the addresses a resolution loop collects for a partition *)
Definition resolved_addresses (macs : Dict.t mac_info) (arp : Dict.t string)
    : list string :=
  flat_map (λ item, HostList.ipadd arp item.1) (Dict.items macs).

(** the order of two elements decorated with their sort keys *)
Definition key_le {A} (x y : N * A) : Prop := (x.1 ≤ y.1)%N.

(** the numeric order of two dotted quads *)
Definition ip_le (a b : string) : Prop :=
  ∃ x y, IPv4.ip_int_from_string a = Ok x ∧ IPv4.ip_int_from_string b = Ok y
         ∧ (x ≤ y)%N.

(** ** Notions for the further properties *)

(** [s.startswith(w)] *)
Fixpoint starts_with (w s : string) : bool :=
  match w with
  | EmptyString => true
  | String a w' =>
      match s with
      | EmptyString => false
      | String b s' => Ascii.eqb a b && starts_with w' s'
      end
  end.

(** [sub in s] for two strings *)
Fixpoint contains (sub s : string) : bool :=
  starts_with sub s
  || match s with
     | EmptyString => false
     | String _ r => contains sub r
     end.

(** [s[i:]] *)
Fixpoint skip (i : nat) (s : string) : string :=
  match i, s with
  | O, _ => s
  | S i', String _ r => skip i' r
  | S _, EmptyString => EmptyString
  end.

(** one step of [((?!bad).)*]: [bad] does not start at [i], and the
    character at [i] is not a newline *)
Definition tempered_at (bad : Re.regex) (s : string) (i : nat) : bool :=
  negb (Re.rmatch bad s i (λ _, true))
  && match String.get i s with
     | Some c => negb (Ascii.eqb c PyStr.newline)
     | None => false
     end.

(** [^((?!bad).)*$] *)
Definition tempered (bad : Re.regex) : Re.regex :=
  Re.Cat Re.Bos (Re.Cat (Re.Star (Re.Cat (Re.NotAhead bad) Re.Any)) Re.Eos).

(** the ten decimal digits, and the strings of [n] of them *)
Definition digit_chars : list ascii :=
  ["0"; "1"; "2"; "3"; "4"; "5"; "6"; "7"; "8"; "9"]%char.

Fixpoint digit_strings (n : nat) : list string :=
  match n with
  | O => [EmptyString]
  | S n' => flat_map (λ c, map (String c) (digit_strings n')) digit_chars
  end.

(** ** Replies used as examples *)

Module Scenario.

Definition up : ip_interface := {| lineProtocolStatus := "up" |}.

Definition row (mac port : string) (vlan : Z) : mac_entry :=
  {| macAddress := mac; interface := port; vlanId := vlan;
     entryType := "dynamic" |}.

Definition arp (ip mac : string) : neighbor :=
  {| address := ip; hwAddress := mac |}.


(** a partition of two hosts and an index that knows two addresses of
    the first and none of the second *)
Definition two_hosts : Dict.t mac_info :=
  [("aabb.cc00.1122", {| info_interface := "Ethernet1"; info_vlanId := 10 |});
   ("aabb.cc00.1133", {| info_interface := "Ethernet2"; info_vlanId := 10 |})].

Definition secondary_index : Dict.t string :=
  [("10.0.10.5", "aabb.cc00.1122"); ("10.0.10.9", "aabb.cc00.1199");
   ("10.0.10.6", "aabb.cc00.1122")].

(** one MAC address seen in two VLANs that are both routed at the leaf *)
Definition duplicate_leaf : leaf_replies :=
  {| show_macs := [row "aa:bb:cc:00:11:22" "Ethernet1" 10;
                   row "aa:bb:cc:00:11:22" "Ethernet2" 20];
     interfaces := [("Vlan10", up); ("Vlan20", up)];
     leaf_arp := [];
     show_vlans := ["1"; "10"; "20"];
     hostname := "leaf1" |}.

(** one MAC address seen in three VLANs: two routed at the leaf, one
    routed elsewhere *)
Definition trunk_leaf : leaf_replies :=
  {| show_macs := [row "aa:bb:cc:00:11:22" "Ethernet1" 10;
                   row "aa:bb:cc:00:11:22" "Ethernet2" 20;
                   row "aa:bb:cc:00:11:22" "Ethernet3" 30];
     interfaces := [("Vlan10", up); ("Vlan20", up)];
     leaf_arp := [];
     show_vlans := ["1"; "10"; "20"; "30"];
     hostname := "leaf1" |}.

(** a host in the default VLAN, which the VLAN filter leaves out *)
Definition default_vlan_leaf : leaf_replies :=
  {| show_macs := [row "aa:bb:cc:00:11:22" "Ethernet5" 1];
     interfaces := [("Vlan10", up)];
     leaf_arp := [];
     show_vlans := ["1"; "10"];
     hostname := "leaf1" |}.

(** a MAC address learned in the MLAG peering VLAN *)
Definition peering_leaf : leaf_replies :=
  {| show_macs := [row "aa:bb:cc:00:11:22" "Port-Channel2000" 4094];
     interfaces := [("Vlan10", up); ("Vlan4094", up)];
     leaf_arp := [];
     show_vlans := ["1"; "10"; "4094"];
     hostname := "leaf1" |}.

(** a router that cannot be reached for VLAN 20 and answers for the
    other VLANs *)
Definition flaky_router (command : string) : result (Dict.t vrf_arp) :=
  if String.eqb command "show arp vrf all interface vlan20"
  then Raise ConnectionError
  else Ok [("prod", {| dynamicEntries := 1;
                       ipV4Neighbors := [arp "10.0.30.7" "aabb.cc00.3333"] |})].

(** a host of a locally routed VLAN without an ARP entry, next to two
    VLANs routed elsewhere *)
Definition mixed_leaf : leaf_replies :=
  {| show_macs := [row "aa:bb:cc:00:11:22" "Ethernet1" 10;
                   row "aa:bb:cc:00:33:33" "Ethernet3" 30];
     interfaces := [("Vlan10", up)];
     leaf_arp := [];
     show_vlans := ["1"; "10"; "20"; "30"];
     hostname := "leaf1" |}.

Definition dns (ip : string) : result string :=
  if String.eqb ip "10.0.10.5" then Ok "host-a.example.com" else Raise herror.

(** a leaf whose ARP table holds an address written with a leading zero *)
Definition padded_address_leaf : leaf_replies :=
  {| show_macs := [row "aa:bb:cc:00:11:22" "Ethernet1" 10];
     interfaces := [("Vlan10", up)];
     leaf_arp := [arp "10.0.10.05" "aabb.cc00.1122"];
     show_vlans := ["10"];
     hostname := "leaf1" |}.

End Scenario.

(** * Facts *)

Import HostList.

(** closes a decidable goal about concrete data by evaluation *)
Ltac solve_decide :=
  match goal with
  | |- ?P => apply (@bool_decide_unpack P _); vm_compute; exact I
  end.

Section PyStrFacts.

Lemma mem_spec s l : PyStr.mem s l = true ↔ s ∈ l.
Proof.
  unfold PyStr.mem. rewrite existsb_exists. split.
  - intros (x & Hx & He). apply String.eqb_eq in He. subst.
    by apply list_elem_of_In.
  - intros H. exists s. split; [by apply list_elem_of_In|apply String.eqb_refl].
Qed.

Lemma mem_false s l : PyStr.mem s l = false ↔ s ∉ l.
Proof.
  rewrite <- mem_spec. by destruct (PyStr.mem s l).
Qed.

Lemma append_cons x (a b : string) : String x a +:+ b = String x (a +:+ b).
Proof. reflexivity. Qed.

Lemma append_assoc (a b c : string) : (a +:+ b) +:+ c = a +:+ b +:+ c.
Proof.
  induction a as [|x a IH]; [done|]. rewrite !append_cons. by f_equal.
Qed.

Lemma append_nil_r (a : string) : a +:+ "" = a.
Proof.
  induction a as [|x a IH]; [done|]. rewrite append_cons. by f_equal.
Qed.

Lemma length_append (a b : string) :
  String.length (a +:+ b) = (String.length a + String.length b)%nat.
Proof.
  induction a as [|x a IH]; [done|]. rewrite append_cons. simpl. by f_equal.
Qed.

Lemma split_no_sep sep g : PyStr.has_char sep g = false → PyStr.split sep g = [g].
Proof.
  induction g as [|c g IH]; simpl; [done|].
  intros [Hc Hg]%orb_false_iff. by rewrite Hc, (IH Hg).
Qed.

Lemma split_group sep g rest :
  PyStr.has_char sep g = false →
  PyStr.split sep (g +:+ String sep rest) = g :: PyStr.split sep rest.
Proof.
  induction g as [|c g IH]; intros Hg.
  - simpl. by rewrite Ascii.eqb_refl.
  - simpl in Hg. apply orb_false_iff in Hg as [Hc Hg].
    rewrite append_cons. simpl. by rewrite Hc, (IH Hg).
Qed.

Lemma split_join sep gs :
  gs ≠ [] → Forall (λ g, PyStr.has_char sep g = false) gs →
  PyStr.split sep (PyStr.join (String sep "") gs) = gs.
Proof.
  induction gs as [|g gs IH]; [done|]. intros _ [Hg Hgs]%Forall_cons.
  destruct gs as [|g' gs]; [by apply split_no_sep|].
  change (PyStr.join (String sep "") (g :: g' :: gs))
    with (g +:+ String sep (PyStr.join (String sep "") (g' :: gs))).
  rewrite split_group by done. f_equal. by apply IH.
Qed.

End PyStrFacts.

Section DictFacts.
Context {V : Type}.
Implicit Types (d : Dict.t V) (k : string) (v : V).

Lemma get_set k v d k' :
  Dict.get (Dict.set k v d) k' = if String.eqb k' k then Some v else Dict.get d k'.
Proof.
  induction d as [|[k0 v0] d IH]; simpl; [done|].
  destruct (String.eqb_spec k k0) as [->|Hk]; simpl.
  - by destruct (String.eqb_spec k' k0).
  - rewrite IH. destruct (String.eqb_spec k' k0) as [->|]; [|done].
    by destruct (String.eqb_spec k0 k) as [->|].
Qed.

Lemma keys_set_in k v d : k ∈ Dict.keys d → Dict.keys (Dict.set k v d) = Dict.keys d.
Proof.
  induction d as [|[k0 v0] d IH]; simpl; [by intros ?%elem_of_nil|].
  intros Hin. destruct (String.eqb_spec k k0) as [->|Hk]; simpl; [done|].
  f_equal. apply IH. apply elem_of_cons in Hin as [?|?]; done.
Qed.

Lemma keys_set_notin k v d :
  k ∉ Dict.keys d → Dict.keys (Dict.set k v d) = Dict.keys d ++ [k].
Proof.
  induction d as [|[k0 v0] d IH]; simpl; [done|].
  intros Hin. apply not_elem_of_cons in Hin as [Hk Hin].
  destruct (String.eqb_spec k k0) as [->|_]; simpl; [done|].
  f_equal. by apply IH.
Qed.

Lemma NoDup_keys_set k v d :
  NoDup (Dict.keys d) → NoDup (Dict.keys (Dict.set k v d)).
Proof.
  intros Hd. destruct (decide (k ∈ Dict.keys d)) as [Hin|Hin].
  - by rewrite keys_set_in.
  - rewrite keys_set_notin by done. apply NoDup_app. split; [done|].
    split; [|apply NoDup_singleton].
    intros x Hx ->%list_elem_of_singleton. done.
Qed.

Lemma get_Some_elem d k v : Dict.get d k = Some v → (k, v) ∈ Dict.items d.
Proof.
  induction d as [|[k0 v0] d IH]; simpl; [done|].
  destruct (String.eqb_spec k k0) as [->|Hk].
  - intros [= ->]. apply elem_of_cons. by left.
  - intros H. apply elem_of_cons. right. by apply IH.
Qed.

Lemma elem_get_Some d k v :
  NoDup (Dict.keys d) → (k, v) ∈ Dict.items d → Dict.get d k = Some v.
Proof.
  induction d as [|[k0 v0] d IH]; simpl; [by intros _ ?%elem_of_nil|].
  intros [Hk0 Hd]%NoDup_cons [Heq|Hin]%elem_of_cons.
  - injection Heq as -> ->. by rewrite String.eqb_refl.
  - destruct (String.eqb_spec k k0) as [->|Hk]; [|by apply IH].
    destruct Hk0. apply list_elem_of_fmap. by exists (k0, v).
Qed.

Lemma get_is_Some d k : is_Some (Dict.get d k) ↔ k ∈ Dict.keys d.
Proof.
  induction d as [|[k0 v0] d IH]; simpl.
  - split; [by intros [? ?]|by intros ?%elem_of_nil].
  - destruct (String.eqb_spec k k0) as [->|Hk].
    + split; [intros _; apply elem_of_cons; by left|by eexists].
    + rewrite IH, elem_of_cons. split; [by right|by intros [?|?]].
Qed.

Lemma get_comprehension {A} (key : A → string) (value : A → V) l d k :
  Dict.get (Dict.comprehension key value l d) k
  = match List.find (λ x, String.eqb (key x) k) (rev l) with
    | Some x => Some (value x)
    | None => Dict.get d k
    end.
Proof.
  unfold Dict.comprehension.
  induction l as [|x l IH] using rev_ind; simpl; [done|].
  rewrite fold_left_app, rev_app_distr. simpl.
  rewrite get_set, IH, (String.eqb_sym k (key x)).
  by destruct (String.eqb (key x) k).
Qed.

Lemma NoDup_keys_comprehension {A} (key : A → string) (value : A → V) l d :
  NoDup (Dict.keys d) → NoDup (Dict.keys (Dict.comprehension key value l d)).
Proof.
  unfold Dict.comprehension. revert d.
  induction l as [|x l IH]; simpl; [done|].
  intros d Hd. apply IH. by apply NoDup_keys_set.
Qed.

End DictFacts.

(** ** The ARP indexes *)

Section ArpFacts.

Lemma find_app_first {A} (f : A → bool) (l1 l2 : list A) :
  List.find f (l1 ++ l2)
  = match List.find f l1 with Some x => Some x | None => List.find f l2 end.
Proof.
  induction l1 as [|x l1 IH]; simpl; [done|]. by destruct (f x).
Qed.

Lemma last_row_elem a rows r :
  last_row a rows = Some r → r ∈ rows ∧ address r = a.
Proof.
  unfold last_row. intros [Hin Ha]%find_some. split.
  - apply list_elem_of_In. by apply in_rev.
  - by apply String.eqb_eq.
Qed.


Lemma arp_index_app r1 r2 d :
  arp_index (r1 ++ r2) d = arp_index r2 (arp_index r1 d).
Proof. unfold arp_index, Dict.comprehension. apply fold_left_app. Qed.

Lemma get_arp_dict rows a :
  Dict.get (arp_dict rows) a = hwAddress <$> last_row a rows.
Proof.
  unfold arp_dict, arp_index, last_row. rewrite get_comprehension.
  by destruct (List.find _ _).
Qed.

Lemma NoDup_keys_arp_dict rows : NoDup (Dict.keys (arp_dict rows)).
Proof. apply NoDup_keys_comprehension. constructor. Qed.


Lemma collect_vrfs_rows vrfs d :
  fold_left collect_vrf vrfs d
  = arp_index (flat_map (λ vrf, if 0 <? dynamicEntries vrf
                                 then ipV4Neighbors vrf else []) vrfs) d.
Proof.
  revert d. induction vrfs as [|vrf vrfs IH]; intros d; simpl; [done|].
  rewrite IH, arp_index_app. unfold collect_vrf.
  by destruct (0 <? dynamicEntries vrf).
Qed.

Lemma router_arp_rows router vlans d :
  (∀ vlan, vlan ∈ vlans → ∃ vrfs, router (show_arp_command vlan) = Ok vrfs) →
  router_arp router vlans d = Ok (arp_index (router_rows router vlans) d).
Proof.
  revert d. induction vlans as [|vlan vlans IH]; intros d Hok; simpl; [done|].
  destruct (Hok vlan) as [vrfs Hv]; [apply elem_of_cons; by left|].
  rewrite Hv. simpl. rewrite IH.
  - by rewrite collect_vrfs_rows, arp_index_app.
  - intros u Hu. apply Hok. apply elem_of_cons. by right.
Qed.

End ArpFacts.

(** ** The resolution loops *)

Section ResolveFacts.

Lemma elem_of_ipadd (arp : Dict.t string) m a :
  a ∈ ipadd arp m ↔ (a, m) ∈ Dict.items arp.
Proof.
  unfold ipadd, Dict.items. rewrite list_elem_of_fmap. split.
  - intros ([a' m'] & -> & Hin). apply list_elem_of_In, filter_In in Hin.
    destruct Hin as [Hin Heq]. simpl in *. apply String.eqb_eq in Heq.
    subst m'. by apply list_elem_of_In.
  - intros Hin. exists (a, m). split; [done|].
    apply list_elem_of_In, filter_In. split; [by apply list_elem_of_In|].
    apply String.eqb_refl.
Qed.

Lemma ipadd_nil (arp : Dict.t string) m :
  ipadd arp m = [] ↔ m ∉ Dict.values arp.
Proof.
  split.
  - intros Hnil ([a m'] & -> & Hin)%list_elem_of_fmap. simpl in *.
    apply elem_of_ipadd in Hin. rewrite Hnil in Hin. by apply elem_of_nil in Hin.
  - intros Hm. destruct (ipadd arp m) as [|a l] eqn:He; [done|]. destruct Hm.
    assert (a ∈ ipadd arp m) as Ha by (rewrite He; apply elem_of_cons; by left).
    apply elem_of_ipadd in Ha. apply list_elem_of_fmap. by exists (a, m).
Qed.

Lemma resolve_app hostname (pre post : Dict.t mac_info) arp st :
  resolve hostname (pre ++ post) arp st
  = resolve hostname post arp (resolve hostname pre arp st).
Proof. unfold resolve, Dict.items. apply fold_left_app. Qed.

Lemma resolve_mac_unresolved hostname arp st m info :
  m ∉ Dict.values arp →
  resolve_mac hostname arp st (m, info)
  = (Fs.append (noip_file hostname) (noip_line m info) st.1, st.2).
Proof. intros Hm%mem_false. unfold resolve_mac. by rewrite Hm. Qed.

Lemma resolve_mac_resolved hostname arp st m info :
  m ∈ Dict.values arp →
  resolve_mac hostname arp st (m, info) = (st.1, st.2 ++ ipadd arp m).
Proof. intros Hm%mem_spec. unfold resolve_mac. by rewrite Hm. Qed.

End ResolveFacts.

(** ** The two partitions *)

Section PartitionFacts.
Implicit Types (cond : mac_entry → bool) (l : list mac_entry)
  (d : Dict.t mac_info) (e : mac_entry) (k : string).

Lemma keyed_true cond k e :
  keyed cond k e = true ↔ cond e = true ∧ mac_key e = Ok k.
Proof.
  unfold keyed. rewrite andb_true_iff.
  destruct (mac_key e) as [k'|x].
  - rewrite String.eqb_eq. split; intros [? ?]; split; congruence.
  - split; intros [? ?]; done.
Qed.

Lemma mac_dict_keys_ok cond l d d' e :
  mac_dict cond l d = Ok d' → e ∈ l → cond e = true →
  ∃ k, mac_key e = Ok k.
Proof.
  revert d. induction l as [|x l IH]; intros d Hd Hin Hc;
    [by apply elem_of_nil in Hin|].
  simpl in Hd. apply elem_of_cons in Hin as [->|Hin].
  - rewrite Hc in Hd. destruct (mac_key x) as [k|]; [by exists k|done].
  - destruct (cond x); [|by eapply IH].
    destruct (mac_key x) as [k|]; [|done]. by eapply IH.
Qed.

Lemma mac_dict_get cond l d d' k :
  mac_dict cond l d = Ok d' →
  Dict.get d' k = match List.find (keyed cond k) (rev l) with
                  | Some e => Some (mac_value e)
                  | None => Dict.get d k
                  end.
Proof.
  revert d. induction l as [|x l IH]; intros d Hd; simpl in *.
  - by injection Hd as ->.
  - rewrite find_app_first. simpl. unfold keyed at 2.
    destruct (cond x); simpl.
    + destruct (mac_key x) as [k0|]; [|done]. simpl in Hd.
      rewrite (IH _ Hd), get_set, (String.eqb_sym k k0).
      by destruct (List.find _ (rev l)), (String.eqb k0 k).
    + rewrite (IH _ Hd). by destruct (List.find _ (rev l)).
Qed.

Lemma mac_dict_NoDup cond l d d' :
  NoDup (Dict.keys d) → mac_dict cond l d = Ok d' → NoDup (Dict.keys d').
Proof.
  revert d. induction l as [|x l IH]; intros d Hnd Hd; simpl in *.
  - by injection Hd as <-.
  - destruct (cond x); [|by eapply IH].
    destruct (mac_key x) as [k0|]; [|done]. simpl in Hd.
    eapply IH; [|done]. by apply NoDup_keys_set.
Qed.

Lemma partition_NoDup cond l d' :
  mac_dict cond l Dict.empty = Ok d' → NoDup (Dict.keys d').
Proof. apply mac_dict_NoDup. constructor. Qed.

(** a value of a partition comes from a row that passed its condition *)
Lemma mac_dict_origin cond l d' k v :
  mac_dict cond l Dict.empty = Ok d' → Dict.get d' k = Some v →
  ∃ e, e ∈ l ∧ cond e = true ∧ mac_key e = Ok k ∧ v = mac_value e.
Proof.
  intros Hd Hg. rewrite (mac_dict_get _ _ _ _ _ Hd) in Hg.
  destruct (List.find _ _) as [e|] eqn:Hf; [|done].
  apply find_some in Hf as [Hin [Hc Hk]%keyed_true].
  exists e. repeat split; try done.
  - apply list_elem_of_In. by apply in_rev.
  - by injection Hg.
Qed.

(** the row that is last for its key on its side is in the partition *)
Lemma mac_dict_last cond pre e post d' k :
  mac_dict cond (pre ++ e :: post) Dict.empty = Ok d' →
  cond e = true → mac_key e = Ok k →
  (∀ e', e' ∈ post → cond e' = true → mac_key e' = Ok k →
         mac_value e' = mac_value e) →
  Dict.get d' k = Some (mac_value e).
Proof.
  intros Hd Hc Hk Hpost. rewrite (mac_dict_get _ _ _ _ _ Hd).
  rewrite rev_app_distr. simpl. rewrite <- app_assoc, find_app_first.
  destruct (List.find _ (rev post)) as [e'|] eqn:Hf.
  - apply find_some in Hf as [Hin [Hc' Hk']%keyed_true]. f_equal.
    apply Hpost; try done. apply list_elem_of_In. by apply in_rev.
  - simpl. by rewrite (proj2 (keyed_true cond k e) (conj Hc Hk)).
Qed.

(** a row that passes the condition leaves its key in the partition *)
Lemma mac_dict_key_present cond l d d' e k :
  mac_dict cond l d = Ok d' → e ∈ l → cond e = true → mac_key e = Ok k →
  k ∈ Dict.keys d'.
Proof.
  intros Hd Hin Hc Hk. apply get_is_Some. rewrite (mac_dict_get _ _ _ _ k Hd).
  destruct (List.find _ _) eqn:Hf; [by eexists|].
  assert (In e (rev l)) as Hin'
    by (rewrite <- in_rev; by apply list_elem_of_In).
  apply (find_none _ _ Hf) in Hin'.
  by rewrite (proj2 (keyed_true cond k e) (conj Hc Hk)) in Hin'.
Qed.

Lemma is_local_vlan vlan_ints e e' :
  mac_value e' = mac_value e → is_local vlan_ints e' = is_local vlan_ints e.
Proof. unfold is_local. intros [= _ ->]. done. Qed.

End PartitionFacts.

(** The interface pattern lets [Vlan1] through: with that interface up, a
    host of the default VLAN is kept in the local partition. *)
Example default_vlan_local :
  Re.re_match Re.vlan_interface "Vlan1" = true
  ∧ vlan_ints [("Vlan1", Scenario.up)] = ["Vlan1"]
  ∧ local_macs [Scenario.row "aa:bb:cc:00:11:22" "Ethernet5" 1] ["Vlan1"]
    = Ok [("aabb.cc00.1122",
           {| info_interface := "Ethernet5"; info_vlanId := 1 |})].
Proof. repeat split; vm_compute; reflexivity. Qed.

(** ** The pattern of the layer-3 interfaces *)

Section RegexFacts.
Import Re.

Example not_Vx_Ro_examples :
  map (re_match not_Vx_Ro)
    ["Ethernet1"; "Vxlan1"; "Router"; "Port-Channel10"; ""; "Ethernet1" +:+ nl;
     "Eth" +:+ nl +:+ "1"]
  = [true; false; false; true; true; true; false].
Proof. vm_compute. reflexivity. Qed.

Example not_st_examples :
  map (re_match not_st) ["static"; "dynamic"; "peerDynamic"; "st"; "s"]
  = [false; true; true; false; true].
Proof. vm_compute. reflexivity. Qed.

Example vlan_interface_examples :
  map (re_match vlan_interface)
    ["Vlan1"; "Vlan10"; "Vlan4092"; "Vlan4093"; "Vlan4094"; "Vlan0409";
     "Vlan9999"; "Vlan40930"; "Vlan"; "vlan10"; "Vlan10a"; "Ethernet1";
     "Vlan10" +:+ nl; "Vlan4093" +:+ nl]
  = [true; true; true; false; false; true;
     true; false; false; false; false; false;
     true; false].
Proof. vm_compute. reflexivity. Qed.

Example vlan_number_examples :
  map (re_match vlan_number)
    ["1"; "10"; "11"; "4092"; "4093"; "4094"; ""; "12345"; "01"; "a";
     "1" +:+ nl; "10" +:+ nl]
  = [false; true; true; true; false; false; false; false; true; false;
     false; true].
Proof. vm_compute. reflexivity. Qed.

Lemma rmatch_Lit c s i k :
  rmatch (Lit c) s i k = true → String.get i s = Some c ∧ k (S i) = true.
Proof.
  simpl. destruct (String.get i s) as [c'|]; [|done].
  destruct (Ascii.eqb_spec c c') as [->|]; done.
Qed.

Lemma rmatch_Digit s i k :
  rmatch Digit s i k = true →
  (∃ c, String.get i s = Some c ∧ PyStr.is_digit c = true) ∧ k (S i) = true.
Proof.
  simpl. destruct (String.get i s) as [c'|]; [|done].
  destruct (PyStr.is_digit c') eqn:Hd; [|done]. by eauto.
Qed.

Lemma rmatch_Rep_S lo hi r s i k :
  rmatch (Rep lo (S hi) r) s i k
  = (rmatch r s i (λ j, rmatch (Rep (Nat.pred lo) hi r) s j k)
     || (if Nat.eqb lo 0 then k i else false))%bool.
Proof. reflexivity. Qed.

Lemma rmatch_Rep_O lo r s i k :
  rmatch (Rep lo 0 r) s i k = if Nat.eqb lo 0 then k i else false.
Proof. reflexivity. Qed.

(** [\d{lo,hi}] consumes between [lo] and [hi] digits *)
Lemma rmatch_Rep_Digit lo hi s i k :
  rmatch (Rep lo hi Digit) s i k = true →
  ∃ n, (lo ≤ n ≤ hi)%nat
       ∧ (∀ j, (j < n)%nat →
               ∃ c, String.get (i + j) s = Some c ∧ PyStr.is_digit c = true)
       ∧ k (i + n)%nat = true.
Proof.
  revert lo i. induction hi as [|hi IH]; intros lo i.
  - rewrite rmatch_Rep_O. destruct (Nat.eqb_spec lo 0) as [->|]; [|done].
    intros Hk. exists 0%nat. rewrite Nat.add_0_r. split; [lia|]. split; [|done].
    intros j Hj. lia.
  - rewrite rmatch_Rep_S. intros [Hm|Hz]%orb_true_iff.
    + apply rmatch_Digit in Hm as [Hd Hm].
      apply IH in Hm as (n & Hn & Hds & Hk).
      exists (S n). split; [lia|]. split.
      * intros [|j] Hj; [by rewrite Nat.add_0_r|].
        rewrite <- Nat.add_succ_comm. apply Hds. lia.
      * by rewrite <- Nat.add_succ_comm.
    + destruct (Nat.eqb_spec lo 0) as [->|]; [|done].
      exists 0%nat. rewrite Nat.add_0_r. split; [lia|]. split; [|done].
      intros j Hj. lia.
Qed.

Lemma rmatch_NotBehind w r s i k :
  rmatch (NotBehind w r) s i k = true → k i = true.
Proof. simpl. by destruct (_ && _)%bool. Qed.

Lemma rmatch_Eos s i k :
  rmatch Eos s i k = true → at_end s i = true ∧ k i = true.
Proof. simpl. by destruct (at_end s i). Qed.

Lemma rmatch_Bos s i k : rmatch Bos s i k = true → i = 0%nat ∧ k i = true.
Proof. simpl. by destruct (Nat.eqb_spec i 0). Qed.

Lemma get_all_digits s i c :
  IPv4.all_digits s = true → String.get i s = Some c → PyStr.is_digit c = true.
Proof.
  revert i. induction s as [|c' s IH]; intros i; simpl; [done|].
  intros [Hc Hs]%andb_true_iff. destruct i as [|i]; [by intros [= <-]|].
  by apply IH.
Qed.


Lemma rmatch_Cat r1 r2 s i k :
  rmatch (Cat r1 r2) s i k = rmatch r1 s i (λ j, rmatch r2 s j k).
Proof. reflexivity. Qed.

Lemma rmatch_lits w r s i k :
  rmatch (Cat (lits w) r) s i k = true →
  rmatch r s (i + String.length w)%nat k = true.
Proof.
  revert i. induction w as [|c w IH]; intros i.
  - rewrite Nat.add_0_r. done.
  - intros H. change (rmatch (Lit c) s i (λ j, rmatch (Cat (lits w) r) s j k)
                      = true) in H.
    apply rmatch_Lit in H as [_ H]. apply IH in H.
    change (String.length (String c w)) with (S (String.length w)).
    by rewrite <- Nat.add_succ_comm.
Qed.

(** a string that passes the pattern after ["Vlan"] starts with a
    digit, and has at most four characters unless it holds a newline *)
Lemma vlan_interface_digits p :
  re_match vlan_interface ("Vlan" +:+ p) = true →
  (∃ c, String.get 0 p = Some c ∧ PyStr.is_digit c = true)
  ∧ ((String.length p ≤ 4)%nat
     ∨ ∃ n, String.get n p = Some PyStr.newline).
Proof.
  unfold re_match, vlan_interface. intros H.
  rewrite rmatch_Cat in H. apply rmatch_Bos in H as [_ H].
  apply rmatch_lits in H. rewrite rmatch_Cat in H.
  apply rmatch_Rep_Digit in H as (n & Hn & Hds & H).
  rewrite rmatch_Cat in H. apply rmatch_NotBehind in H.
  apply rmatch_Eos in H as [He _].
  change (0 + String.length "Vlan")%nat with 4%nat in *.
  split.
  - destruct (Hds 0%nat) as (c & Hc & Hd); [lia|]. by exists c.
  - unfold at_end in He. apply orb_true_iff in He as [He|He].
    + apply Nat.eqb_eq in He.
      change (String.length ("Vlan" +:+ p)) with (4 + String.length p)%nat in He.
      left. lia.
    + apply andb_true_iff in He as [_ He]. right. exists n.
      change (String.get (4 + n) ("Vlan" +:+ p)) with (String.get n p) in He.
      destruct (String.get n p) as [c|]; [|done].
      by apply Ascii.eqb_eq in He as ->.
Qed.

End RegexFacts.

(** ** str(n) *)

Section PrettyFacts.

Lemma is_digit_pretty_N_char x :
  (x < 10)%N → PyStr.is_digit (pretty_N_char x) = true.
Proof.
  intros Hx. 
  assert (x = 0 ∨ x = 1 ∨ x = 2 ∨ x = 3 ∨ x = 4 ∨ x = 5 ∨ x = 6 ∨ x = 7
          ∨ x = 8 ∨ x = 9)%N as Hc by lia.
  repeat (destruct Hc as [->|Hc]; [reflexivity|]). by subst.
Qed.

Lemma all_digits_app a b :
  IPv4.all_digits (a +:+ b)
  = (IPv4.all_digits a && IPv4.all_digits b)%bool.
Proof.
  induction a as [|c a IH]; simpl; [done|]. rewrite IH. by rewrite andb_assoc.
Qed.

(** the digits [pretty_N_go] puts in front of its accumulator *)
Lemma pretty_N_go_digits x s :
  ∃ ds, pretty_N_go x s = ds +:+ s ∧ IPv4.all_digits ds = true
        ∧ (x < 10 ^ N.of_nat (String.length ds))%N.
Proof.
  revert s. induction (N.lt_wf_0 x) as [x _ IH]; intros s.
  destruct (decide (x = 0)%N) as [->|Hx].
  - exists "". rewrite pretty_N_go_0. by repeat split.
  - rewrite pretty_N_go_step by lia.
    destruct (IH (x `div` 10)%N) with (s := String (pretty_N_char (x `mod` 10)) s)
      as (ds & -> & Hd & Hlt).
    { apply N.div_lt; lia. }
    exists (ds +:+ String (pretty_N_char (x `mod` 10)) "").
    split; [|split].
    + by rewrite append_assoc.
    + rewrite all_digits_app, Hd. simpl.
      rewrite is_digit_pretty_N_char; [done|]. apply N.mod_lt. lia.
    + rewrite length_append. simpl.
      rewrite Nat.add_1_r, Nat2N.inj_succ, N.pow_succ_r'.
      pose proof (N.div_mod x 10 ltac:(lia)). 
      pose proof (N.mod_lt x 10 ltac:(lia)). lia.
Qed.

Lemma pretty_Z_nonneg (v : Z) :
  0 ≤ v → IPv4.all_digits (pretty v) = true
          ∧ v < 10 ^ Z.of_nat (String.length (pretty v)).
Proof.
  intros Hv. destruct v as [|x|x]; [by split| |lia].
  unfold pretty, pretty_Z, pretty, pretty_positive, pretty, pretty_N.
  rewrite decide_False by done.
  destruct (pretty_N_go_digits (N.pos x) "") as (ds & -> & Hd & Hlt).
  rewrite append_nil_r.
  split; [done|].
  apply N2Z.inj_lt in Hlt. rewrite N2Z.inj_pow in Hlt.
  by rewrite nat_N_Z in Hlt.
Qed.

Lemma pretty_Z_neg (v : Z) : v < 0 → String.get 0 (pretty v) = Some "-"%char.
Proof. intros Hv. destruct v as [|x|x]; [lia|lia|done]. Qed.

(** what the pattern of the layer-3 interfaces lets through, for the
    name the script builds from a VLAN number *)
Lemma vlan_interface_pretty (v : Z) :
  Re.re_match Re.vlan_interface ("Vlan" +:+ pretty v) = true →
  0 ≤ v ≤ 9999 ∧ v ≠ 4093 ∧ v ≠ 4094.
Proof.
  intros H. split; [|split; intros ->; vm_compute in H; discriminate].
  apply vlan_interface_digits in H as [(c & Hc & Hd) Hlen].
  assert (0 ≤ v) as Hv.
  { destruct (decide (0 ≤ v)) as [|Hneg]; [done|].
    rewrite pretty_Z_neg in Hc by lia. by injection Hc as <-. }
  split; [done|]. destruct (pretty_Z_nonneg v Hv) as [Hall Hlt].
  destruct Hlen as [Hlen|[n Hn]].
  - assert (10 ^ Z.of_nat (String.length (pretty v)) ≤ 10 ^ 4).
    { apply Z.pow_le_mono_r; lia. }
    lia.
  - apply (get_all_digits _ _ _ Hall) in Hn. done.
Qed.

End PrettyFacts.

(** ** The report files *)

Section FsFacts.

Lemma content_append name text (files : Fs.t) :
  Fs.content name (Fs.append name text files) = Fs.content name files ++ [text].
Proof. unfold Fs.content at 1, Fs.append, Fs.t. by rewrite lookup_insert_eq. Qed.

Lemma lookup_append_ne name text (files : Fs.t) f :
  f ≠ name → Fs.append name text files !! f = files !! f.
Proof. intros Hf. unfold Fs.append, Fs.t. by rewrite lookup_insert_ne. Qed.


Lemma content_open_append name (files : Fs.t) f :
  Fs.content f (Fs.open_append name files) = Fs.content f files.
Proof.
  unfold Fs.content at 1, Fs.open_append, Fs.t.
  destruct (decide (name = f)) as [->|Hf].
  - by rewrite lookup_insert_eq.
  - by rewrite lookup_insert_ne.
Qed.

Lemma lookup_open_append_ne name (files : Fs.t) f :
  f ≠ name → Fs.open_append name files !! f = files !! f.
Proof. intros Hf. unfold Fs.open_append, Fs.t. by rewrite lookup_insert_ne. Qed.

Lemma noip_file_ne_ip_file hostname : noip_file hostname ≠ ip_file hostname.
Proof.
  unfold noip_file, ip_file. intros H. by apply (inj (String.append _)) in H.
Qed.

(** what the two loops leave: the lines of the hosts without an address,
    in the no-IP report only, and the addresses of the others *)
Lemma resolve_spec hostname (macs : Dict.t mac_info) arp (st : state) :
  Fs.content (noip_file hostname) (resolve hostname macs arp st).1
  = Fs.content (noip_file hostname) st.1 ++ unresolved_lines macs arp
  ∧ (∀ f, f ≠ noip_file hostname →
          (resolve hostname macs arp st).1 !! f = st.1 !! f)
  ∧ (resolve hostname macs arp st).2 = st.2 ++ resolved_addresses macs arp.
Proof.
  unfold resolve, unresolved_lines, resolved_addresses, Dict.items.
  revert st. induction macs as [|[m info] macs IH]; intros st.
  - simpl. by rewrite !app_nil_r.
  - destruct (IH (resolve_mac hostname arp st (m, info))) as (Hc & Hf & Hi).
    cbn [fold_left flat_map fst snd]. rewrite Hc, Hi.
    split; [|split].
    + destruct (PyStr.mem m (Dict.values arp)) eqn:Hm.
      * by rewrite resolve_mac_resolved by by apply mem_spec.
      * rewrite resolve_mac_unresolved by by apply mem_false. simpl.
        by rewrite content_append, <- app_assoc.
    + intros f Hne. rewrite (Hf f Hne).
      destruct (PyStr.mem m (Dict.values arp)) eqn:Hm.
      * by rewrite resolve_mac_resolved by by apply mem_spec.
      * rewrite resolve_mac_unresolved by by apply mem_false. simpl.
        by apply lookup_append_ne.
    + destruct (PyStr.mem m (Dict.values arp)) eqn:Hm.
      * rewrite resolve_mac_resolved by by apply mem_spec. simpl.
        by rewrite app_assoc.
      * rewrite resolve_mac_unresolved by by apply mem_false. simpl.
        assert (ipadd arp m = []) as ->
          by (apply ipadd_nil; by apply mem_false).
        done.
Qed.

Lemma write_names_spec gethostbyaddr hostname ips (files : Fs.t) :
  Fs.content (ip_file hostname) (write_names gethostbyaddr hostname ips files)
  = Fs.content (ip_file hostname) files ++ map (name_line gethostbyaddr) ips
  ∧ ∀ f, f ≠ ip_file hostname →
         write_names gethostbyaddr hostname ips files !! f = files !! f.
Proof.
  unfold write_names.
  assert (∀ fs : Fs.t,
    Fs.content (ip_file hostname)
      (fold_left (λ files ip, Fs.append (ip_file hostname)
                                (name_line gethostbyaddr ip) files) ips fs)
    = Fs.content (ip_file hostname) fs ++ map (name_line gethostbyaddr) ips
    ∧ ∀ f, f ≠ ip_file hostname →
           fold_left (λ files ip, Fs.append (ip_file hostname)
                                    (name_line gethostbyaddr ip) files) ips fs
           !! f = fs !! f) as Hfold.
  { induction ips as [|ip ips IH]; intros fs; simpl.
    - by rewrite app_nil_r.
    - destruct (IH (Fs.append (ip_file hostname)
                      (name_line gethostbyaddr ip) fs)) as [Hc Hf].
      rewrite Hc, content_append, <- app_assoc. split; [done|].
      intros f Hne. rewrite (Hf f Hne). by apply lookup_append_ne. }
  destruct (Hfold (Fs.open_append (ip_file hostname) files)) as [Hc Hf].
  rewrite Hc, content_open_append. split; [done|].
  intros f Hne. rewrite (Hf f Hne). by apply lookup_open_append_ne.
Qed.

End FsFacts.

(** ** The sort *)

Section SortFacts.
Context {A : Type}.
Implicit Types (x : N * A) (l : list (N * A)).

Lemma insert_perm x l : Sorted.insert x l ≡ₚ x :: l.
Proof.
  induction l as [|y l IH]; simpl; [done|].
  destruct (x.1 <=? y.1)%N; [done|].
  rewrite IH. apply Permutation_swap.
Qed.

Lemma sort_perm l : Sorted.sort l ≡ₚ l.
Proof.
  induction l as [|x l IH]; simpl; [done|]. by rewrite insert_perm, IH.
Qed.

Lemma insert_sorted x l :
  StronglySorted key_le l → StronglySorted key_le (Sorted.insert x l).
Proof.
  induction 1 as [|y l Hl IH Hy]; simpl; [by repeat constructor|].
  destruct (N.leb_spec x.1 y.1) as [Hle|Hgt].
  - constructor; [by constructor|]. constructor; [done|].
    eapply Forall_impl; [exact Hy|]. intros z Hz. unfold key_le in *. lia.
  - constructor; [done|]. rewrite insert_perm. constructor; [|done].
    unfold key_le. lia.
Qed.

Lemma sort_sorted l : StronglySorted key_le (Sorted.sort l).
Proof.
  induction l as [|x l IH]; simpl; [constructor|]. by apply insert_sorted.
Qed.

(** the sort is stable: the elements of one key keep their order *)
Lemma insert_stable x l (n : N) :
  List.filter (λ y, y.1 =? n)%N (Sorted.insert x l)
  = List.filter (λ y, y.1 =? n)%N (x :: l).
Proof.
  induction l as [|y l IH]; [done|]. simpl Sorted.insert.
  destruct (N.leb_spec x.1 y.1) as [Hle|Hgt]; [done|].
  simpl in *. rewrite IH.
  destruct (N.eqb_spec x.1 n), (N.eqb_spec y.1 n); try done. lia.
Qed.

Lemma sort_stable l (n : N) :
  List.filter (λ y, y.1 =? n)%N (Sorted.sort l)
  = List.filter (λ y, y.1 =? n)%N l.
Proof.
  induction l as [|x l IH]; [done|]. simpl Sorted.sort.
  rewrite insert_stable. simpl. by rewrite IH.
Qed.

(** two stable arrangements by key of the same elements are the same
    list, so [Sorted.sort] stands for any stable sort *)
Lemma stable_sort_unique l1 l2 :
  StronglySorted key_le l1 → StronglySorted key_le l2 →
  (∀ n, List.filter (λ y, y.1 =? n)%N l1 = List.filter (λ y, y.1 =? n)%N l2) →
  l1 = l2.
Proof.
  intros H1. revert l2.
  induction H1 as [|x r1 Hr1 IH Hx]; intros l2 H2 Hf.
  - destruct l2 as [|y r2]; [done|]. specialize (Hf y.1). simpl in Hf.
    by rewrite N.eqb_refl in Hf.
  - destruct H2 as [|y r2 Hr2 Hy].
    { specialize (Hf x.1). simpl in Hf. by rewrite N.eqb_refl in Hf. }
    assert (x.1 = y.1) as Hk.
    { apply N.le_antisymm.
      - pose proof (Hf y.1) as Hfy. simpl in Hfy.
        rewrite (N.eqb_refl y.1) in Hfy.
        destruct (N.eqb_spec x.1 y.1) as [->|_]; [done|].
        assert (In y (List.filter (λ z, z.1 =? y.1)%N r1)) as Hin
          by (rewrite Hfy; by left).
        apply filter_In in Hin as [Hin _].
        rewrite Forall_forall in Hx. apply Hx. by apply list_elem_of_In.
      - pose proof (Hf x.1) as Hfx. simpl in Hfx.
        rewrite (N.eqb_refl x.1) in Hfx.
        destruct (N.eqb_spec y.1 x.1) as [->|_]; [done|].
        assert (In x (List.filter (λ z, z.1 =? x.1)%N r2)) as Hin
          by (rewrite <- Hfx; by left).
        apply filter_In in Hin as [Hin _].
        rewrite Forall_forall in Hy. apply Hy. by apply list_elem_of_In. }
    assert (x = y) as ->.
    { specialize (Hf y.1). simpl in Hf.
      rewrite Hk, N.eqb_refl in Hf. by injection Hf. }
    f_equal. apply IH; [done|]. intros n. specialize (Hf n). simpl in Hf.
    destruct (y.1 =? n)%N; [by injection Hf|done].
Qed.

Lemma decorate_spec (key : A → result N) (l : list A) dl :
  Sorted.decorate key l = Ok dl →
  map snd dl = l ∧ Forall (λ d, key d.2 = Ok d.1) dl.
Proof.
  revert dl. induction l as [|x l IH]; intros dl; simpl.
  - intros [= <-]. by split.
  - destruct (key x) as [n|] eqn:Hk; [|done]. simpl.
    destruct (Sorted.decorate key l) as [dr|]; [|done]. simpl.
    intros [= <-]. destruct (IH dr eq_refl) as [Hm Hf]. simpl.
    split; [by rewrite Hm|]. by constructor.
Qed.

Lemma decorate_total (key : A → result N) (l : list A) :
  Forall (λ a, ∃ n, key a = Ok n) l → ∃ dl, Sorted.decorate key l = Ok dl.
Proof.
  induction 1 as [|x l [n Hn] _ [dl IH]]; simpl; [by eexists|].
  rewrite Hn, IH. simpl. by eexists.
Qed.

Lemma sorted_spec (key : A → result N) (l l' : list A) :
  Sorted.sorted key l = Ok l' →
  l ≡ₚ l'
  ∧ StronglySorted
      (λ a b, ∃ p q : N, key a = Ok p ∧ key b = Ok q ∧ (p ≤ q)%N) l'.
Proof.
  unfold Sorted.sorted.
  destruct (Sorted.decorate key l) as [dl|] eqn:Hd; [|done]. simpl.
  intros [= <-]. apply decorate_spec in Hd as [Hm Hk]. split.
  - rewrite <- Hm. by rewrite sort_perm.
  - assert (Forall (λ d, key d.2 = Ok d.1) (Sorted.sort dl)) as Hk'
      by by rewrite sort_perm.
    pose proof (sort_sorted dl) as Hs.
    induction Hs as [|d r Hr IH Hd]; simpl; [constructor|].
    apply Forall_cons in Hk' as [Hkd Hkr]. constructor; [by apply IH|].
    apply Forall_fmap. apply Forall_forall. intros z Hz.
    rewrite Forall_forall in Hd, Hkr. simpl.
    exists d.1, z.1. split; [done|]. split; [by apply Hkr|by apply Hd].
Qed.

End SortFacts.

(** ** The queries to the router *)

Section RouterFacts.

Lemma router_arp_app router pre post d :
  router_arp router (pre ++ post) d
  = d' ← router_arp router pre d; router_arp router post d'.
Proof.
  revert d. induction pre as [|u pre IH]; intros d; simpl; [done|].
  destruct (router (show_arp_command u)); simpl; [apply IH|done].
Qed.

Lemma collect_vrf_none (vrfs : list vrf_arp) d :
  Forall (λ vrf, dynamicEntries vrf ≤ 0) vrfs →
  fold_left collect_vrf vrfs d = d.
Proof.
  induction 1 as [|vrf vrfs Hv _ IH]; simpl; [done|].
  unfold collect_vrf at 2. destruct (Z.ltb_spec 0 (dynamicEntries vrf)); [lia|].
  exact IH.
Qed.

End RouterFacts.

(** ** Texts of digits *)

Section DigitFacts.

Lemma is_digit_cases c : PyStr.is_digit c = true → c ∈ digit_chars.
Proof.
  destruct c as [[] [] [] [] [] [] [] []]; intros H;
    first [discriminate H | solve_decide].
Qed.

Lemma all_digits_strings o :
  IPv4.all_digits o = true → o ∈ digit_strings (String.length o).
Proof.
  induction o as [|c o IH].
  - intros _. apply list_elem_of_singleton. done.
  - intros H. simpl in H. apply andb_true_iff in H as [Hc Ho].
    change (String c o ∈ flat_map (λ c, map (String c)
                                          (digit_strings (String.length o)))
                           digit_chars).
    apply list_elem_of_In, in_flat_map.
    exists c. split; [by apply list_elem_of_In, is_digit_cases|].
    apply in_map. by apply list_elem_of_In, IH.
Qed.

End DigitFacts.

(** ** The two VLAN patterns, on VLAN numbers *)

Section VlanPatternFacts.
Import Re.

Lemma rmatch_NotAhead r s i k : rmatch (NotAhead r) s i k = true → k i = true.
Proof. simpl. by destruct (rmatch r s i _). Qed.

Lemma vlan_number_digits p :
  re_match vlan_number p = true →
  (∃ c, String.get 0 p = Some c ∧ PyStr.is_digit c = true)
  ∧ ((String.length p ≤ 4)%nat ∨ ∃ n, String.get n p = Some PyStr.newline).
Proof.
  unfold re_match, vlan_number. intros H.
  rewrite rmatch_Cat in H. apply rmatch_Bos in H as [_ H].
  rewrite rmatch_Cat in H. apply rmatch_NotAhead in H.
  rewrite rmatch_Cat in H.
  apply rmatch_Rep_Digit in H as (n & Hn & Hds & H).
  rewrite rmatch_Cat in H. apply rmatch_NotBehind in H.
  apply rmatch_Eos in H as [He _]. simpl in He, Hds. split.
  - destruct (Hds 0%nat) as (c & Hc & Hd); [lia|]. by exists c.
  - unfold at_end in He. apply orb_true_iff in He as [He|He].
    + apply Nat.eqb_eq in He. left. lia.
    + apply andb_true_iff in He as [_ He]. right. exists n.
      destruct (String.get n p) as [c|]; [|done].
      by apply Ascii.eqb_eq in He as ->.
Qed.

Lemma vlan_number_range (v : Z) :
  re_match vlan_number (pretty v) = true → 0 ≤ v ≤ 9999.
Proof.
  intros [(c & Hc & Hd) Hlen]%vlan_number_digits.
  assert (0 ≤ v) as Hv.
  { destruct (decide (0 ≤ v)) as [|Hneg]; [done|].
    rewrite pretty_Z_neg in Hc by lia. by injection Hc as <-. }
  split; [done|]. destruct (pretty_Z_nonneg v Hv) as [Hall Hlt].
  destruct Hlen as [Hlen|[n Hn]].
  - assert (10 ^ Z.of_nat (String.length (pretty v)) ≤ 10 ^ 4).
    { apply Z.pow_le_mono_r; lia. }
    lia.
  - apply (get_all_digits _ _ _ Hall) in Hn. done.
Qed.

Lemma pretty_N_go_length x s :
  ∃ ds, pretty_N_go x s = ds +:+ s
        ∧ (x = 0%N → ds = "")
        ∧ (0 < x → 10 ^ N.of_nat (String.length ds) ≤ 10 * x)%N.
Proof.
  revert s. induction (N.lt_wf_0 x) as [x _ IH]; intros s.
  destruct (decide (x = 0)%N) as [->|Hx].
  - exists "". rewrite pretty_N_go_0. split; [done|]. split; [done|lia].
  - rewrite pretty_N_go_step by lia.
    destruct (IH (x `div` 10)%N) with (s := String (pretty_N_char (x `mod` 10)) s)
      as (ds & -> & Hz & Hle).
    { apply N.div_lt; lia. }
    exists (ds +:+ String (pretty_N_char (x `mod` 10)) "").
    split; [by rewrite append_assoc|]. split; [lia|]. intros _.
    rewrite length_append. simpl.
    rewrite Nat.add_1_r, Nat2N.inj_succ, N.pow_succ_r'.
    pose proof (N.div_mod x 10 ltac:(lia)).
    pose proof (N.mod_lt x 10 ltac:(lia)).
    destruct (decide (x `div` 10 = 0)%N) as [Hq|Hq].
    + rewrite (Hz Hq). change (N.of_nat (String.length "")) with 0%N.
      rewrite N.pow_0_r. clear -Hx. lia.
    + specialize (Hle (proj1 (N.neq_0_lt_0 _) Hq)).
      clear -Hle H H0. revert Hle H H0.
      generalize (x `div` 10)%N (x `mod` 10)%N
        (10 ^ N.of_nat (String.length ds))%N.
      intros q r p. lia.
Qed.

(** the decimal text of a number from 0 to 9999 has one to four digits *)
Lemma pretty_Z_digit_string (v : Z) :
  0 ≤ v ≤ 9999 →
  pretty v ∈ digit_strings 1 ++ digit_strings 2 ++ digit_strings 3
             ++ digit_strings 4.
Proof.
  intros Hv. destruct (pretty_Z_nonneg v ltac:(lia)) as [Hd Hlt].
  apply all_digits_strings in Hd.
  assert (1 ≤ String.length (pretty v) ≤ 4)%nat as Hlen.
  { destruct v as [|x|x]; [simpl; lia| |lia].
    unfold pretty, pretty_Z, pretty, pretty_positive, pretty, pretty_N in *.
    rewrite decide_False in * by done.
    destruct (pretty_N_go_length (N.pos x) "") as (ds & He & _ & Hle).
    rewrite He, append_nil_r in *. specialize (Hle ltac:(lia)).
    split.
    - destruct ds; [|simpl; lia]. simpl in Hlt. lia.
    - destruct (le_lt_dec (String.length ds) 4) as [|Hgt]; [done|].
      assert (10 ^ 5 ≤ 10 ^ N.of_nat (String.length ds))%N
        by (apply N.pow_le_mono_r; lia).
      lia. }
  rewrite !elem_of_app.
  destruct (String.length (pretty v)) as [|[|[|[|[|?]]]]]; try lia; auto.
Qed.

(** the two patterns, tried on every text of one to four digits *)
Lemma vlan_number_strings :
  forallb (λ p, Bool.eqb (re_match vlan_number p)
                  (negb (String.eqb p "1" || String.eqb p "4093"
                         || String.eqb p "4094")))
    (digit_strings 1 ++ digit_strings 2 ++ digit_strings 3 ++ digit_strings 4)
  = true.
Proof. vm_compute. reflexivity. Qed.

Lemma vlan_interface_strings :
  forallb (λ p, Bool.eqb (re_match vlan_interface ("Vlan" +:+ p))
                  (negb (String.eqb p "4093" || String.eqb p "4094")))
    (digit_strings 1 ++ digit_strings 2 ++ digit_strings 3 ++ digit_strings 4)
  = true.
Proof. vm_compute. reflexivity. Qed.

Lemma pretty_eqb_false (v w : Z) : v ≠ w → String.eqb (pretty v) (pretty w) = false.
Proof.
  intros Hne. apply String.eqb_neq. intros H. by apply (inj pretty) in H.
Qed.

Lemma vlan_number_accepts (v : Z) :
  re_match vlan_number (pretty v) = true
  ↔ 0 ≤ v ≤ 9999 ∧ v ≠ 1 ∧ v ≠ 4093 ∧ v ≠ 4094.
Proof.
  split.
  - intros H. apply vlan_number_range in H as Hr. split; [done|].
    repeat split; intros ->; vm_compute in H; discriminate.
  - intros (Hr & H1 & H2 & H3).
    pose proof vlan_number_strings as Ht. rewrite forallb_forall in Ht.
    specialize (Ht (pretty v)
                  ltac:(by apply list_elem_of_In, pretty_Z_digit_string)).
    change "1" with (pretty 1) in Ht. change "4093" with (pretty 4093) in Ht.
    change "4094" with (pretty 4094) in Ht.
    rewrite !pretty_eqb_false in Ht by done. simpl in Ht.
    by destruct (re_match vlan_number (pretty v)).
Qed.

Lemma vlan_interface_accepts (v : Z) :
  re_match vlan_interface ("Vlan" +:+ pretty v) = true
  ↔ 0 ≤ v ≤ 9999 ∧ v ≠ 4093 ∧ v ≠ 4094.
Proof.
  split; [apply vlan_interface_pretty|].
  intros (Hr & H2 & H3).
  pose proof vlan_interface_strings as Ht. rewrite forallb_forall in Ht.
  specialize (Ht (pretty v)
                ltac:(by apply list_elem_of_In, pretty_Z_digit_string)).
  change "4093" with (pretty 4093) in Ht.
  change "4094" with (pretty 4094) in Ht.
  rewrite !pretty_eqb_false in Ht by done. simpl in Ht.
  by destruct (re_match vlan_interface ("Vlan" +:+ pretty v)).
Qed.

Lemma line_up_key (ifs : Dict.t ip_interface) name :
  line_up ifs name = true → name ∈ Dict.keys ifs.
Proof.
  unfold line_up. intros H. apply get_is_Some.
  destruct (Dict.get ifs name); [by eexists|done].
Qed.

End VlanPatternFacts.

(** ** Which rows are local, and what a partition keeps under a key *)

Section LocalityFacts.

Lemma line_up_status (ifs : Dict.t ip_interface) name :
  line_up ifs name = true
  ↔ ∃ i, Dict.get ifs name = Some i ∧ lineProtocolStatus i = "up".
Proof.
  unfold line_up. destruct (Dict.get ifs name) as [i|].
  - rewrite String.eqb_eq. split; [by exists i|]. by intros (i' & [= <-] & ?).
  - split; [done|]. by intros (i & ? & _).
Qed.

Lemma is_local_status (ifs : Dict.t ip_interface) (e : mac_entry) :
  is_local (vlan_ints ifs) e = true
  ↔ 0 ≤ vlanId e ≤ 9999 ∧ vlanId e ≠ 4093 ∧ vlanId e ≠ 4094
    ∧ ∃ i, Dict.get ifs ("Vlan" +:+ pretty (vlanId e)) = Some i
           ∧ lineProtocolStatus i = "up".
Proof.
  rewrite <- line_up_status. unfold is_local. rewrite mem_spec. unfold vlan_ints.
  rewrite list_elem_of_In, filter_In, andb_true_iff, vlan_interface_accepts.
  split.
  - intros (_ & (? & ? & ?) & ?). done.
  - intros (? & ? & ? & Hup). split; [|done].
    apply list_elem_of_In. by apply line_up_key.
Qed.

Lemma find_rev_split {A} (f : A → bool) (l : list A) x :
  List.find f (rev l) = Some x →
  ∃ a b, l = a ++ x :: b ∧ f x = true ∧ ∀ y, y ∈ b → f y = false.
Proof.
  induction l as [|z l IH] using rev_ind; [done|].
  rewrite rev_app_distr. simpl. destruct (f z) eqn:Hz.
  - intros [= <-]. exists l, []. split; [done|]. split; [done|].
    intros y Hy. by apply elem_of_nil in Hy.
  - intros (a & b & -> & Hx & Hb)%IH. exists a, (b ++ [z]).
    split; [by rewrite <- app_assoc|]. split; [done|].
    intros y [Hy|Hy%list_elem_of_singleton]%elem_of_app; [by apply Hb|by subst].
Qed.

(** under the key of a row, a partition keeps the last row of that key
    that passed its condition, which is the row itself or a later one *)
Lemma mac_dict_last_row cond pre e post d' k :
  mac_dict cond (pre ++ e :: post) Dict.empty = Ok d' →
  cond e = true → mac_key e = Ok k →
  ∃ mid last rest,
    e :: post = mid ++ last :: rest
    ∧ cond last = true ∧ mac_key last = Ok k
    ∧ (∀ x, x ∈ rest → ¬ (cond x = true ∧ mac_key x = Ok k))
    ∧ Dict.get d' k = Some (mac_value last).
Proof.
  intros Hd Hc Hk. rewrite (mac_dict_get _ _ _ _ k Hd).
  rewrite rev_app_distr, find_app_first.
  destruct (List.find (keyed cond k) (rev (e :: post))) as [last|] eqn:Hf.
  - apply find_rev_split in Hf as (mid & rest & Heq & Hl & Hrest).
    apply keyed_true in Hl as [? ?]. exists mid, last, rest.
    split; [done|]. split; [done|]. split; [done|]. split; [|done].
    intros x Hx Hkx%keyed_true. by rewrite (Hrest x Hx) in Hkx.
  - assert (In e (rev (e :: post))) as Hin by (rewrite <- in_rev; by left).
    apply (find_none _ _ Hf) in Hin.
    by rewrite (proj2 (keyed_true cond k e) (conj Hc Hk)) in Hin.
Qed.

Lemma unresolved_lines_app (pre post : Dict.t mac_info) (arp : Dict.t string) :
  unresolved_lines (pre ++ post) arp
  = unresolved_lines pre arp ++ unresolved_lines post arp.
Proof. unfold unresolved_lines, Dict.items. apply flat_map_app. Qed.

Lemma resolved_addresses_app (pre post : Dict.t mac_info) (arp : Dict.t string) :
  resolved_addresses (pre ++ post) arp
  = resolved_addresses pre arp ++ resolved_addresses post arp.
Proof. unfold resolved_addresses, Dict.items. apply flat_map_app. Qed.

Lemma unresolved_lines_origin (macs : Dict.t mac_info) (arp : Dict.t string) line :
  line ∈ unresolved_lines macs arp →
  ∃ m info, (m, info) ∈ Dict.items macs ∧ (m ∉ Dict.values arp)
            ∧ line = noip_line m info.
Proof.
  unfold unresolved_lines. rewrite list_elem_of_In, in_flat_map.
  intros ([m info] & Hin & Hl). simpl in Hl.
  destruct (PyStr.mem m (Dict.values arp)) eqn:Hm; [done|].
  destruct Hl as [<-|[]]. exists m, info.
  split; [by apply list_elem_of_In|]. split; [by apply mem_false|done].
Qed.

Lemma resolved_addresses_origin (macs : Dict.t mac_info) (arp : Dict.t string) a :
  a ∈ resolved_addresses macs arp →
  ∃ m info, (m, info) ∈ Dict.items macs ∧ (a, m) ∈ Dict.items arp.
Proof.
  unfold resolved_addresses. rewrite list_elem_of_In, in_flat_map.
  intros ([m info] & Hin & Ha). exists m, info.
  split; [by apply list_elem_of_In|]. apply elem_of_ipadd. by apply list_elem_of_In.
Qed.

Lemma key_of_item (d : Dict.t mac_info) m info :
  (m, info) ∈ Dict.items d → m ∈ Dict.keys d.
Proof. intros Hin. apply list_elem_of_fmap. by exists (m, info). Qed.

Lemma partition_sides (rows : list mac_entry) (ints : list string) local routed :
  local_macs rows ints = Ok local → routed_macs rows ints = Ok routed →
  (∀ x, appears_in local x → is_local ints x = true)
  ∧ (∀ x, appears_in routed x → is_local ints x = false).
Proof.
  unfold local_macs, routed_macs. intros Hl Hr. split.
  - intros x (k & Hk & Hg).
    destruct (mac_dict_origin _ _ _ _ _ Hl Hg) as (x' & _ & Hc & _ & Hv).
    by rewrite (is_local_vlan ints x' x Hv).
  - intros x (k & Hk & Hg).
    destruct (mac_dict_origin _ _ _ _ _ Hr Hg) as (x' & _ & Hc & _ & Hv).
    rewrite <- (is_local_vlan ints x' x Hv) in Hc.
    by apply negb_true_iff.
Qed.

End LocalityFacts.


(** * The claims *)

(** C1. Resolution completeness.  A partition has distinct keys, so the
    loop has exactly one round for a MAC address [m] of it, between the
    rounds of the keys before it and of the keys after it, none of which
    is [m].  After the loop the no-IP report holds what it held, then the
    lines of the keys before [m], then either the one line of [m] or
    nothing, then the lines of the keys after [m]; [ip_addrs] grows in the
    same way by either nothing or the addresses of [m].  The line of [m]
    is written exactly when the ARP index maps no address to [m], and
    addresses are collected for [m] exactly when it maps some: then every
    address the index maps to [m] is collected.  No other file changes. *)
Theorem resolution_complete host (macs : Dict.t mac_info)
    (arp : Dict.t string) m info :
  NoDup (Dict.keys macs) → (m, info) ∈ Dict.items macs →
  (∀ a, a ∈ ipadd arp m ↔ (a, m) ∈ Dict.items arp)
  ∧ ∃ pre post,
      macs = pre ++ (m, info) :: post
      ∧ (m ∉ Dict.keys pre) ∧ (m ∉ Dict.keys post)
      ∧ (∀ line, line ∈ unresolved_lines pre arp ++ unresolved_lines post arp →
           ∃ m' info', m' ≠ m ∧ line = noip_line m' info')
      ∧ (∀ a, a ∈ resolved_addresses pre arp ++ resolved_addresses post arp →
           ∃ m', m' ≠ m ∧ (a, m') ∈ Dict.items arp)
      ∧ ∀ st : state,
          (∀ f, f ≠ noip_file host →
                (resolve host macs arp st).1 !! f = st.1 !! f)
          ∧ ((ipadd arp m = []
              ∧ Fs.content (noip_file host) (resolve host macs arp st).1
                = Fs.content (noip_file host) st.1
                  ++ unresolved_lines pre arp
                  ++ ["MAC Address: " +:+ m +:+ " in VLAN: "
                      +:+ pretty (info_vlanId info) +:+ " on port "
                      +:+ info_interface info
                      +:+ " does not resolve to an IP address" +:+ nl]
                  ++ unresolved_lines post arp
              ∧ (resolve host macs arp st).2
                = st.2 ++ resolved_addresses pre arp
                  ++ resolved_addresses post arp)
             ∨ (ipadd arp m ≠ []
                ∧ Fs.content (noip_file host) (resolve host macs arp st).1
                  = Fs.content (noip_file host) st.1
                    ++ unresolved_lines pre arp ++ unresolved_lines post arp
                ∧ (resolve host macs arp st).2
                  = st.2 ++ resolved_addresses pre arp ++ ipadd arp m
                    ++ resolved_addresses post arp)).
Proof.
  intros Hnd Hin. split; [apply elem_of_ipadd|].
  unfold Dict.items in Hin.
  apply list_elem_of_split in Hin as (pre & post & ->).
  exists pre, post.
  assert ((m ∉ Dict.keys pre) ∧ (m ∉ Dict.keys post)) as [Hpre Hpost].
  { unfold Dict.keys in *. rewrite fmap_app, fmap_cons in Hnd. simpl in Hnd.
    apply NoDup_app in Hnd as (_ & Hpre & [Hpost _]%NoDup_cons).
    split; [|done]. intros Hm. apply (Hpre m Hm). apply elem_of_cons. by left. }
  split; [done|]. split; [done|]. split; [done|]. split; [|split].
  - intros line [Hl|Hl]%elem_of_app;
      apply unresolved_lines_origin in Hl as (m' & info' & Hm' & _ & ->);
      apply key_of_item in Hm'; exists m', info'; (split; [|done]);
      by intros ->.
  - intros a [Ha|Ha]%elem_of_app;
      apply resolved_addresses_origin in Ha as (m' & info' & Hm' & Ha);
      apply key_of_item in Hm'; exists m'; (split; [|done]); by intros ->.
  - intros st.
    destruct (resolve_spec host (pre ++ (m, info) :: post) arp st)
      as (Hc & Hf & Hi).
    split; [exact Hf|]. rewrite Hc, Hi.
    rewrite unresolved_lines_app, resolved_addresses_app.
    change (unresolved_lines ((m, info) :: post) arp)
      with ((if PyStr.mem m (Dict.values arp) then []
             else [noip_line m info]) ++ unresolved_lines post arp).
    change (resolved_addresses ((m, info) :: post) arp)
      with (ipadd arp m ++ resolved_addresses post arp).
    destruct (PyStr.mem m (Dict.values arp)) eqn:Hm.
    + right. apply mem_spec in Hm. split; [|done].
      rewrite ipadd_nil. by intros ?.
    + left. apply mem_false, ipadd_nil in Hm. rewrite Hm. by split.
Qed.

Lemma resolution_complete_witness :
  ipadd Scenario.secondary_index "aabb.cc00.1133" = []
  ∧ ∀ a, a ∈ ipadd Scenario.secondary_index "aabb.cc00.1133"
         ↔ (a, "aabb.cc00.1133") ∈ Dict.items Scenario.secondary_index.
Proof.
  split; [reflexivity|].
  refine (proj1 (resolution_complete "leaf1" Scenario.two_hosts
    Scenario.secondary_index "aabb.cc00.1133"
    {| info_interface := "Ethernet2"; info_vlanId := 10 |} _ _)).
  - solve_decide.
  - solve_decide.
Defined.

(** C2, as the script has it.  The remote VLANs are queried one after
    another and nothing catches a failure: the first VLAN whose query
    raises ends the aggregation with that exception, so no index is
    built, whatever the replies for the other VLANs.  A VLAN whose query
    succeeds with no VRF reporting dynamic entries contributes zero
    entries; the others are then aggregated as without it. *)
Theorem router_queries_sequential
    (router : string → result (Dict.t vrf_arp)) pre v post d :
  (∀ u, u ∈ pre → ∃ vrfs, router (show_arp_command u) = Ok vrfs) →
  (∀ e, router (show_arp_command v) = Raise e →
        router_arp router (pre ++ v :: post) d = Raise e)
  ∧ (∀ vrfs, router (show_arp_command v) = Ok vrfs →
       Forall (λ vrf, dynamicEntries vrf ≤ 0) (Dict.values vrfs) →
       router_arp router (pre ++ v :: post) d
       = router_arp router (pre ++ post) d).
Proof.
  intros Hpre. rewrite !router_arp_app, (router_arp_rows _ _ _ Hpre).
  split.
  - intros e He. simpl. by rewrite He.
  - intros vrfs Hv Hnone. simpl. rewrite Hv. simpl.
    by rewrite collect_vrf_none.
Qed.

Lemma router_queries_sequential_witness :
  router_arp Scenario.flaky_router ([] ++ "20" :: ["30"]) Dict.empty
  = Raise ConnectionError.
Proof.
  refine (proj1 (router_queries_sequential Scenario.flaky_router
                   [] "20" ["30"] Dict.empty _) ConnectionError _).
  - intros u Hu. by apply elem_of_nil in Hu.
  - reflexivity.
Defined.

Lemma partial_result_counterexample :
  router_vlans (leaf_vlans (show_vlans Scenario.mixed_leaf))
    (vlan_ints (interfaces Scenario.mixed_leaf)) = ["20"; "30"]
  ∧ Scenario.flaky_router (show_arp_command "20") = Raise ConnectionError
  ∧ Scenario.flaky_router (show_arp_command "30")
    = Ok [("prod", {| dynamicEntries := 1;
                      ipV4Neighbors :=
                        [Scenario.arp "10.0.30.7" "aabb.cc00.3333"] |})]
  ∧ router_arp Scenario.flaky_router ["20"; "30"] Dict.empty
    = Raise ConnectionError
  ∧ (main Scenario.mixed_leaf Scenario.flaky_router Scenario.dns ∅).1
    = Raise ConnectionError.
Proof. repeat split; vm_compute; reflexivity. Qed.

(** C3, as the script has it.  The partitions are cut by the list of
    active layer-3 interfaces alone, so a filtered row whose VLAN has no
    verdict in the Locality mapping is not dropped: when [Vlan<id>] is not
    an active layer-3 interface the row is sent to the routed partition,
    which holds its key, and it is never in the local one. *)
Theorem unclassified_vlan_kept (leaf : leaf_replies) local routed e :
  local_macs (macadds (show_macs leaf)) (vlan_ints (interfaces leaf)) = Ok local →
  routed_macs (macadds (show_macs leaf)) (vlan_ints (interfaces leaf)) = Ok routed →
  e ∈ macadds (show_macs leaf) →
  ¬ has_locality (show_vlans leaf) e →
  is_local (vlan_ints (interfaces leaf)) e = false →
  (∃ k, mac_key e = Ok k ∧ k ∈ Dict.keys routed) ∧ ¬ appears_in local e.
Proof.
  unfold local_macs, routed_macs. intros Hl Hr Hin _ He.
  assert (negb (is_local (vlan_ints (interfaces leaf)) e) = true) as He'
    by by rewrite He.
  split.
  - destruct (mac_dict_keys_ok _ _ _ _ _ Hr Hin He') as [k Hk].
    exists k. split; [done|].
    by eapply (mac_dict_key_present _ _ _ _ e k Hr).
  - intros (k & Hk & Hg).
    destruct (mac_dict_origin _ _ _ _ _ Hl Hg) as (x & _ & Hc & _ & Hv).
    rewrite <- (is_local_vlan _ x e Hv) in Hc. congruence.
Qed.

Lemma unclassified_vlan_kept_witness :
  (∃ k, mac_key (Scenario.row "aa:bb:cc:00:11:22" "Ethernet5" 1) = Ok k
        ∧ k ∈ Dict.keys
                [("aabb.cc00.1122",
                  {| info_interface := "Ethernet5"; info_vlanId := 1 |})])
  ∧ ¬ appears_in [] (Scenario.row "aa:bb:cc:00:11:22" "Ethernet5" 1).
Proof.
  refine (unclassified_vlan_kept Scenario.default_vlan_leaf [] _ _ _ _ _ _ _).
  - vm_compute. reflexivity.
  - vm_compute. reflexivity.
  - solve_decide.
  - unfold has_locality. solve_decide.
  - vm_compute. reflexivity.
Defined.

Lemma drop_rule_counterexample :
  routed_macs (macadds (show_macs Scenario.default_vlan_leaf))
    (vlan_ints (interfaces Scenario.default_vlan_leaf))
  = Ok [("aabb.cc00.1122", {| info_interface := "Ethernet5"; info_vlanId := 1 |})]
  ∧ Scenario.row "aa:bb:cc:00:11:22" "Ethernet5" 1
    ∈ macadds (show_macs Scenario.default_vlan_leaf)
  ∧ ¬ has_locality (show_vlans Scenario.default_vlan_leaf)
        (Scenario.row "aa:bb:cc:00:11:22" "Ethernet5" 1)
  ∧ appears_in
      [("aabb.cc00.1122", {| info_interface := "Ethernet5"; info_vlanId := 1 |})]
      (Scenario.row "aa:bb:cc:00:11:22" "Ethernet5" 1).
Proof.
  split; [vm_compute; reflexivity|]. split; [solve_decide|].
  split; [unfold has_locality; solve_decide|].
  exists "aabb.cc00.1122". split; vm_compute; reflexivity.
Qed.

(** C4, as the script has it.  A row [e] of the filtered address table is
    sent to one partition: to the local one only if its VLAN number is
    written with one to four digits, is neither 4093 nor 4094 and
    [show ip interface] lists [Vlan<id>] with the line protocol status
    [up], and, for a VLAN other than 1, whenever that holds; to the routed
    one otherwise.  The row is never in the other partition, so never in
    both, and the key formatted from its MAC address is a key of its own
    partition.  The value at that key is that of the last row, [e] or a
    later one, with the same key that is sent to the same partition: [e]
    is in its partition exactly when the interface and VLAN of that last
    row are its own, and in neither partition when they are not.  That is
    so when every later row of the same key and partition has the interface
    and VLAN of [e]. *)
Theorem partition_exclusive (leaf : leaf_replies) local routed pre e post :
  local_macs (macadds (show_macs leaf)) (vlan_ints (interfaces leaf)) = Ok local →
  routed_macs (macadds (show_macs leaf)) (vlan_ints (interfaces leaf)) = Ok routed →
  macadds (show_macs leaf) = pre ++ e :: post →
  (is_local (vlan_ints (interfaces leaf)) e = true →
     0 ≤ vlanId e ≤ 9999 ∧ vlanId e ≠ 4093 ∧ vlanId e ≠ 4094
     ∧ listed_up (interfaces leaf) (vlanId e))
  ∧ (0 ≤ vlanId e ≤ 9999 ∧ vlanId e ≠ 1 ∧ vlanId e ≠ 4093 ∧ vlanId e ≠ 4094
     ∧ listed_up (interfaces leaf) (vlanId e) →
     is_local (vlan_ints (interfaces leaf)) e = true)
  ∧ ¬ (appears_in local e ∧ appears_in routed e)
  ∧ ¬ appears_in (if is_local (vlan_ints (interfaces leaf)) e
                  then routed else local) e
  ∧ ((∀ e', e' ∈ post → mac_key e' = mac_key e →
            is_local (vlan_ints (interfaces leaf)) e'
            = is_local (vlan_ints (interfaces leaf)) e →
            mac_value e' = mac_value e) →
     appears_in (if is_local (vlan_ints (interfaces leaf)) e
                 then local else routed) e)
  ∧ ∃ k mid last rest,
      mac_key e = Ok k
      ∧ k ∈ Dict.keys (if is_local (vlan_ints (interfaces leaf)) e
                       then local else routed)
      ∧ e :: post = mid ++ last :: rest
      ∧ mac_key last = Ok k
      ∧ is_local (vlan_ints (interfaces leaf)) last
        = is_local (vlan_ints (interfaces leaf)) e
      ∧ (∀ x, x ∈ rest →
              ¬ (mac_key x = Ok k
                 ∧ is_local (vlan_ints (interfaces leaf)) x
                   = is_local (vlan_ints (interfaces leaf)) e))
      ∧ Dict.get (if is_local (vlan_ints (interfaces leaf)) e
                  then local else routed) k = Some (mac_value last)
      ∧ (appears_in (if is_local (vlan_ints (interfaces leaf)) e
                     then local else routed) e
         ↔ mac_value last = mac_value e).
Proof.
  intros Hl Hr Hsplit.
  destruct (partition_sides _ _ _ _ Hl Hr) as [Hloc Hrem].
  unfold local_macs, routed_macs in Hl, Hr. rewrite Hsplit in Hl, Hr.
  set (ints := vlan_ints (interfaces leaf)) in *.
  assert (e ∈ pre ++ e :: post) as Hin
    by (apply elem_of_app; right; apply elem_of_cons; by left).
  split; [|split; [|split; [|split; [|split]]]].
  - intros He. by apply is_local_status in He.
  - intros (? & _ & ? & ? & ?). by apply is_local_status.
  - intros [H1%Hloc H2%Hrem]. congruence.
  - destruct (is_local ints e) eqn:He.
    + intros H%Hrem. congruence.
    + intros H%Hloc. congruence.
  - intros Hpost. destruct (is_local ints e) eqn:He.
    + destruct (mac_dict_keys_ok _ _ _ _ _ Hl Hin He) as [k Hk].
      exists k. split; [done|].
      apply (mac_dict_last _ _ _ _ _ _ Hl He Hk).
      intros e' Hin' Hc' Hk'. apply Hpost; congruence.
    + assert (negb (is_local ints e) = true) as He' by by rewrite He.
      destruct (mac_dict_keys_ok _ _ _ _ _ Hr Hin He') as [k Hk].
      exists k. split; [done|].
      apply (mac_dict_last _ _ _ _ _ _ Hr He' Hk).
      intros e' Hin' Hc'%negb_true_iff Hk'. apply Hpost; congruence.
  - destruct (is_local ints e) eqn:He.
    + destruct (mac_dict_keys_ok _ _ _ _ _ Hl Hin He) as [k Hk].
      destruct (mac_dict_last_row _ _ _ _ _ _ Hl He Hk)
        as (mid & last & rest & Heq & Hcl & Hkl & Hrest & Hg).
      exists k, mid, last, rest. split; [done|].
      split; [by eapply mac_dict_key_present|].
      split; [done|]. split; [done|]. split; [done|].
      split; [|split; [done|]].
      * intros x Hx [Hkx Hcx]. by apply (Hrest x Hx).
      * split.
        -- intros (k' & Hk' & Hg'). rewrite Hk in Hk'. injection Hk' as <-.
           rewrite Hg in Hg'. congruence.
        -- intros Hv. exists k. split; [done|]. by rewrite Hg, Hv.
    + assert (negb (is_local ints e) = true) as He' by by rewrite He.
      destruct (mac_dict_keys_ok _ _ _ _ _ Hr Hin He') as [k Hk].
      destruct (mac_dict_last_row _ _ _ _ _ _ Hr He' Hk)
        as (mid & last & rest & Heq & Hcl%negb_true_iff & Hkl & Hrest & Hg).
      exists k, mid, last, rest. split; [done|].
      split; [by eapply (mac_dict_key_present _ _ _ _ e k Hr)|].
      split; [done|]. split; [done|]. split; [done|].
      split; [|split; [done|]].
      * intros x Hx [Hkx Hcx]. apply (Hrest x Hx). by rewrite Hcx.
      * split.
        -- intros (k' & Hk' & Hg'). rewrite Hk in Hk'. injection Hk' as <-.
           rewrite Hg in Hg'. congruence.
        -- intros Hv. exists k. split; [done|]. by rewrite Hg, Hv.
Qed.

Lemma partition_exclusive_witness :
  appears_in [("aabb.cc00.1122",
               {| info_interface := "Ethernet2"; info_vlanId := 20 |})]
    (Scenario.row "aa:bb:cc:00:11:22" "Ethernet2" 20).
Proof.
  refine (proj1 (proj2 (proj2 (proj2 (proj2
    (partition_exclusive Scenario.duplicate_leaf
       [("aabb.cc00.1122", {| info_interface := "Ethernet2"; info_vlanId := 20 |})]
       [] [Scenario.row "aa:bb:cc:00:11:22" "Ethernet1" 10]
       (Scenario.row "aa:bb:cc:00:11:22" "Ethernet2" 20) [] _ _ _))))) _).
  - vm_compute. reflexivity.
  - vm_compute. reflexivity.
  - vm_compute. reflexivity.
  - intros e' Hin. by apply elem_of_nil in Hin.
Defined.

Lemma partition_totality_counterexample :
  local_macs (macadds (show_macs Scenario.trunk_leaf))
    (vlan_ints (interfaces Scenario.trunk_leaf))
  = Ok [("aabb.cc00.1122", {| info_interface := "Ethernet2"; info_vlanId := 20 |})]
  ∧ routed_macs (macadds (show_macs Scenario.trunk_leaf))
      (vlan_ints (interfaces Scenario.trunk_leaf))
    = Ok [("aabb.cc00.1122", {| info_interface := "Ethernet3"; info_vlanId := 30 |})]
  ∧ Scenario.row "aa:bb:cc:00:11:22" "Ethernet1" 10
    ∈ macadds (show_macs Scenario.trunk_leaf)
  ∧ has_locality (show_vlans Scenario.trunk_leaf)
      (Scenario.row "aa:bb:cc:00:11:22" "Ethernet1" 10)
  ∧ ¬ appears_in
        [("aabb.cc00.1122", {| info_interface := "Ethernet2"; info_vlanId := 20 |})]
        (Scenario.row "aa:bb:cc:00:11:22" "Ethernet1" 10)
  ∧ ¬ appears_in
        [("aabb.cc00.1122", {| info_interface := "Ethernet3"; info_vlanId := 30 |})]
        (Scenario.row "aa:bb:cc:00:11:22" "Ethernet1" 10)
  ∧ key_in
      [("aabb.cc00.1122", {| info_interface := "Ethernet2"; info_vlanId := 20 |})]
      (Scenario.row "aa:bb:cc:00:11:22" "Ethernet1" 10)
  ∧ key_in
      [("aabb.cc00.1122", {| info_interface := "Ethernet3"; info_vlanId := 30 |})]
      (Scenario.row "aa:bb:cc:00:11:22" "Ethernet1" 10).
Proof.
  split; [vm_compute; reflexivity|]. split; [vm_compute; reflexivity|].
  split; [solve_decide|]. split; [unfold has_locality; solve_decide|].
  split; [|split; [|split]].
  - intros (k & Hk & Hg). vm_compute in Hk. injection Hk as <-.
    vm_compute in Hg. discriminate.
  - intros (k & Hk & Hg). vm_compute in Hk. injection Hk as <-.
    vm_compute in Hg. discriminate.
  - exists "aabb.cc00.1122". split; [vm_compute; reflexivity|solve_decide].
  - exists "aabb.cc00.1122". split; [vm_compute; reflexivity|solve_decide].
Qed.

(** C5, as the script has it.  [sorted_ips] is ordered by the numeric value
    of the dotted quads, ascending, and is a rearrangement of [ip_addrs]:
    an address collected twice is there twice.  The sort succeeds when every
    address parses, and it is what the name stage then walks through.  The
    four addresses 10.0.0.20, 10.0.0.3, 10.0.0.3, 10.0.0.100 come out as
    10.0.0.3, 10.0.0.3, 10.0.0.20, 10.0.0.100. *)
Theorem sorted_ips_numeric (ip_addrs : list string) :
  (Forall (λ a, ∃ n, IPv4.ip_int_from_string a = Ok n) ip_addrs →
   ∃ l, sorted_ips ip_addrs = Ok l)
  ∧ (∀ l, sorted_ips ip_addrs = Ok l →
          ip_addrs ≡ₚ l ∧ StronglySorted ip_le l)
  ∧ (∀ leaf router gethostbyaddr files files1 l,
       collect leaf router files = (Ok ip_addrs, files1) →
       sorted_ips ip_addrs = Ok l →
       main leaf router gethostbyaddr files
       = (Ok (), write_names gethostbyaddr (hostname leaf) l files1))
  ∧ sorted_ips ["10.0.0.20"; "10.0.0.3"; "10.0.0.3"; "10.0.0.100"]
    = Ok ["10.0.0.3"; "10.0.0.3"; "10.0.0.20"; "10.0.0.100"].
Proof.
  split; [|split; [|split]].
  - intros [dl Hd]%decorate_total. unfold sorted_ips, Sorted.sorted.
    rewrite Hd. simpl. by eexists.
  - intros l Hl. by apply sorted_spec in Hl.
  - intros leaf router gethostbyaddr files files1 l Hc Hs.
    unfold main. by rewrite Hc, Hs.
  - vm_compute. reflexivity.
Qed.

Lemma sort_example_counterexample :
  sorted_ips ["10.0.0.20"; "10.0.0.3"; "10.0.0.3"; "10.0.0.100"]
  ≠ Ok ["10.0.0.3"; "10.0.0.3"; "10.0.0.100"; "10.0.0.20"].
Proof. vm_compute. discriminate. Qed.

(** C6, as the script has it.  The format expression reads one form, the
    colon-delimited one: the six groups [g1:...:g6] become
    [g1g2.g3g4.g5g6], character for character; an address of fewer than six
    colon-delimited groups, such as one that is dot-grouped already, raises
    IndexError; and on addresses of six groups of two characters, equal
    results mean equal addresses. *)
Theorem format_address_colon_delimited (gs hs : list string) :
  Forall (λ g, PyStr.has_char ":" g = false) gs →
  Forall (λ g, PyStr.has_char ":" g = false) hs →
  (∀ g1 g2 g3 g4 g5 g6, gs = [g1; g2; g3; g4; g5; g6] →
     format_address (PyStr.join ":" gs)
     = Ok (g1 +:+ g2 +:+ "." +:+ g3 +:+ g4 +:+ "." +:+ g5 +:+ g6))
  ∧ ((length gs < 6)%nat →
     format_address (PyStr.join ":" gs) = Raise IndexError)
  ∧ (length gs = 6%nat → length hs = 6%nat →
     Forall (λ g, String.length g = 2%nat) (gs ++ hs) →
     format_address (PyStr.join ":" gs) = format_address (PyStr.join ":" hs) →
     gs = hs).
Proof.
  intros Hgs Hhs.
  assert (∀ l, Forall (λ g, PyStr.has_char ":" g = false) l → l ≠ [] →
               format_address (PyStr.join ":" l) = PyStr.format_mac l) as Hfmt.
  { intros l Hl Hne. unfold format_address. by rewrite split_join. }
  split; [|split].
  - intros g1 g2 g3 g4 g5 g6 ->. by rewrite Hfmt.
  - intros Hlen. destruct gs as [|g1 gs]; [done|]. rewrite Hfmt by done.
    do 5 (destruct gs as [|? gs]; [done|]). simpl in Hlen. lia.
  - intros Hlg Hlh Htwo Heq.
    do 6 (destruct gs as [|? gs]; [done|]). destruct gs; [|done].
    do 6 (destruct hs as [|? hs]; [done|]). destruct hs; [|done].
    rewrite !Hfmt in Heq by done. clear Hgs Hhs Hfmt Hlg Hlh.
    simpl in Htwo, Heq.
    repeat match goal with
           | H : Forall _ (_ :: _) |- _ => apply Forall_cons in H as [? H]
           end.
    repeat match goal with
           | H : String.length ?g = 2%nat |- _ =>
               destruct g as [|? [|? [|? ?]]]; try discriminate H; clear H
           end.
    cbv [String.append] in Heq. by simplify_eq.
Qed.

Lemma format_address_colon_delimited_witness :
  format_address "aa:bb:cc:00:11:22" = Ok "aabb.cc00.1122".
Proof.
  refine (proj1 (format_address_colon_delimited
    ["aa"; "bb"; "cc"; "00"; "11"; "22"] [] _ _) _ _ _ _ _ _ eq_refl).
  - repeat constructor.
  - constructor.
Defined.

Lemma format_address_counterexample :
  format_address "aa:bb:cc:00:11:22" = Ok "aabb.cc00.1122"
  ∧ format_address "aabb.cc00.1122" = Raise IndexError
  ∧ format_address "AA:BB:CC:00:11:22" = Ok "AABB.CC00.1122"
  ∧ format_address "aabb.cc00.1122" ≠ format_address "aa:bb:cc:00:11:22"
  ∧ format_address "AA:BB:CC:00:11:22" ≠ format_address "aa:bb:cc:00:11:22".
Proof. by vm_compute. Qed.

(** C7, as the script has it.  A VLAN number kept in the local partition
    is written with one to four digits, so it lies in [0, 9999], it is
    neither 4093 nor 4094, and [show ip interface] lists [Vlan<id>] with
    the line protocol status [up].  The routed partition is not cut to a
    range.  A VLAN number kept there is 1, 4093 or 4094, or lies outside
    [0, 9999], or names no interface listed with the status [up]; and every
    row of the filtered address table whose VLAN is 4093 or 4094, or
    outside [0, 9999], or names no such interface, is not in the local
    partition and has the key formatted from its MAC address in the routed
    one, with the interface and VLAN of the row or of a later row of that
    key, whose VLAN is again one of those. *)
Theorem partition_vlans (leaf : leaf_replies) local routed :
  local_macs (macadds (show_macs leaf)) (vlan_ints (interfaces leaf)) = Ok local →
  routed_macs (macadds (show_macs leaf)) (vlan_ints (interfaces leaf)) = Ok routed →
  (∀ k info, (k, info) ∈ Dict.items local →
     0 ≤ info_vlanId info ≤ 9999
     ∧ info_vlanId info ≠ 4093 ∧ info_vlanId info ≠ 4094
     ∧ listed_up (interfaces leaf) (info_vlanId info))
  ∧ (∀ k info, (k, info) ∈ Dict.items routed →
       info_vlanId info = 1 ∨ info_vlanId info = 4093 ∨ info_vlanId info = 4094
       ∨ ¬ 0 ≤ info_vlanId info ≤ 9999
       ∨ ¬ listed_up (interfaces leaf) (info_vlanId info))
  ∧ (∀ pre e post, macadds (show_macs leaf) = pre ++ e :: post →
       vlanId e = 4093 ∨ vlanId e = 4094 ∨ ¬ 0 ≤ vlanId e ≤ 9999
       ∨ ¬ listed_up (interfaces leaf) (vlanId e) →
       ¬ appears_in local e
       ∧ ∃ k mid last rest,
           mac_key e = Ok k
           ∧ e :: post = mid ++ last :: rest
           ∧ mac_key last = Ok k
           ∧ (k, mac_value last) ∈ Dict.items routed
           ∧ Dict.get routed k = Some (mac_value last)
           ∧ (vlanId last = 4093 ∨ vlanId last = 4094
              ∨ ¬ 0 ≤ vlanId last ≤ 9999
              ∨ ¬ listed_up (interfaces leaf) (vlanId last))).
Proof.
  intros Hl Hr.
  destruct (partition_sides _ _ _ _ Hl Hr) as [Hloc Hrem].
  unfold local_macs, routed_macs in Hl, Hr.
  set (ints := vlan_ints (interfaces leaf)) in *.
  assert (∀ x, is_local ints x = false →
               vlanId x = 4093 ∨ vlanId x = 4094 ∨ ¬ 0 ≤ vlanId x ≤ 9999
               ∨ ¬ listed_up (interfaces leaf) (vlanId x)) as Hout.
  { intros x Hx.
    destruct (decide (vlanId x = 4093)); [tauto|].
    destruct (decide (vlanId x = 4094)); [tauto|].
    destruct (decide (0 ≤ vlanId x ≤ 9999)); [|tauto].
    right; right; right. intros Hup.
    assert (is_local ints x = true) by by apply is_local_status.
    congruence. }
  split; [|split].
  - intros k info Hin.
    apply elem_get_Some in Hin; [|by apply (partition_NoDup _ _ _ Hl)].
    destruct (mac_dict_origin _ _ _ _ _ Hl Hin) as (e & _ & Hc & _ & ->).
    by apply is_local_status in Hc.
  - intros k info Hin.
    apply elem_get_Some in Hin; [|by apply (partition_NoDup _ _ _ Hr)].
    destruct (mac_dict_origin _ _ _ _ _ Hr Hin) as (e & _ & Hc & _ & ->).
    apply negb_true_iff in Hc. right. by apply Hout.
  - intros pre e post Hsplit Hno. rewrite Hsplit in Hr.
    assert (is_local ints e = false) as He.
    { destruct (is_local ints e) eqn:He; [|done].
      apply is_local_status in He as (? & ? & ? & ?).
      destruct Hno as [?|[?|[?|?]]]; done. }
    split; [intros H%Hloc; congruence|].
    assert (negb (is_local ints e) = true) as He' by by rewrite He.
    assert (e ∈ pre ++ e :: post) as Hin
      by (apply elem_of_app; right; apply elem_of_cons; by left).
    destruct (mac_dict_keys_ok _ _ _ _ _ Hr Hin He') as [k Hk].
    destruct (mac_dict_last_row _ _ _ _ _ _ Hr He' Hk)
      as (mid & last & rest & Heq & Hcl%negb_true_iff & Hkl & _ & Hg).
    exists k, mid, last, rest. split; [done|]. split; [done|].
    split; [done|]. split; [by apply get_Some_elem|]. split; [done|].
    by apply Hout.
Qed.

Lemma partition_vlans_witness :
  ¬ appears_in [] (Scenario.row "aa:bb:cc:00:11:22" "Port-Channel2000" 4094)
  ∧ ∃ k mid last rest,
      mac_key (Scenario.row "aa:bb:cc:00:11:22" "Port-Channel2000" 4094) = Ok k
      ∧ [Scenario.row "aa:bb:cc:00:11:22" "Port-Channel2000" 4094]
        = mid ++ last :: rest
      ∧ mac_key last = Ok k
      ∧ (k, mac_value last)
        ∈ Dict.items [("aabb.cc00.1122",
                       {| info_interface := "Port-Channel2000";
                          info_vlanId := 4094 |})]
      ∧ Dict.get [("aabb.cc00.1122",
                   {| info_interface := "Port-Channel2000";
                      info_vlanId := 4094 |})] k
        = Some (mac_value last)
      ∧ (vlanId last = 4093 ∨ vlanId last = 4094
         ∨ ¬ 0 ≤ vlanId last ≤ 9999
         ∨ ¬ listed_up (interfaces Scenario.peering_leaf) (vlanId last)).
Proof.
  refine (proj2 (proj2 (partition_vlans Scenario.peering_leaf []
    [("aabb.cc00.1122",
      {| info_interface := "Port-Channel2000"; info_vlanId := 4094 |})] _ _))
    [] (Scenario.row "aa:bb:cc:00:11:22" "Port-Channel2000" 4094) [] _ _).
  - vm_compute. reflexivity.
  - vm_compute. reflexivity.
  - vm_compute. reflexivity.
  - right. left. reflexivity.
Defined.

Lemma vlan_range_counterexample :
  macadds (show_macs Scenario.peering_leaf)
  = [Scenario.row "aa:bb:cc:00:11:22" "Port-Channel2000" 4094]
  ∧ local_macs (macadds (show_macs Scenario.peering_leaf))
      (vlan_ints (interfaces Scenario.peering_leaf)) = Ok []
  ∧ routed_macs (macadds (show_macs Scenario.peering_leaf))
      (vlan_ints (interfaces Scenario.peering_leaf))
    = Ok [("aabb.cc00.1122",
           {| info_interface := "Port-Channel2000"; info_vlanId := 4094 |})]
  ∧ ¬ (2 ≤ 4094 ≤ 4092).
Proof.
  split; [vm_compute; reflexivity|]. split; [vm_compute; reflexivity|].
  split; [vm_compute; reflexivity|]. lia.
Qed.

(** C8. The name stage writes one record per address of [sorted_ips], in
    their order and to the resolved-name report only: the address with its
    name when the resolver answers, the address with the does-not-resolve
    text when the resolver raises, whatever it raises.  A run that reaches
    the name stage ends without an exception. *)
Theorem name_resolution_never_fatal
    (gethostbyaddr : string → result string) host ips (files : Fs.t) :
  Fs.content (ip_file host) (write_names gethostbyaddr host ips files)
  = Fs.content (ip_file host) files ++ map (name_line gethostbyaddr) ips
  ∧ length (map (name_line gethostbyaddr) ips) = length ips
  ∧ (∀ f, f ≠ ip_file host →
          write_names gethostbyaddr host ips files !! f = files !! f)
  ∧ (∀ ip name, gethostbyaddr ip = Ok name →
       name_line gethostbyaddr ip = ip +:+ "  " +:+ name +:+ " " +:+ nl)
  ∧ (∀ ip e, gethostbyaddr ip = Raise e →
       name_line gethostbyaddr ip = ip +:+ " does not resolve in DNS" +:+ nl)
  ∧ (∀ leaf router files0 ip_addrs files1,
       collect leaf router files0 = (Ok ip_addrs, files1) →
       sorted_ips ip_addrs = Ok ips →
       main leaf router gethostbyaddr files0
       = (Ok (), write_names gethostbyaddr (hostname leaf) ips files1)).
Proof.
  destruct (write_names_spec gethostbyaddr host ips files) as [Hc Hf].
  split; [done|]. split; [apply length_map|]. split; [done|].
  split; [|split].
  - intros ip name Hn. unfold name_line. by rewrite Hn.
  - intros ip e He. unfold name_line. by rewrite He.
  - intros leaf router files0 ip_addrs files1 Hcol Hs.
    unfold main. by rewrite Hcol, Hs.
Qed.

(** C9, as the script has it.  When a query to the router raises, the run
    ends with that exception.  The resolved-name report has not been
    touched, and no line of the routed partition has been written; but the
    loop over the local partition ran before the router was asked, so the
    no-IP report already holds the lines of the local hosts without an
    address. *)
Theorem router_failure_report (leaf : leaf_replies)
    (router : string → result (Dict.t vrf_arp))
    (gethostbyaddr : string → result string) (files : Fs.t) local routed e :
  local_macs (macadds (show_macs leaf)) (vlan_ints (interfaces leaf)) = Ok local →
  routed_macs (macadds (show_macs leaf)) (vlan_ints (interfaces leaf)) = Ok routed →
  router_arp router
    (router_vlans (leaf_vlans (show_vlans leaf)) (vlan_ints (interfaces leaf)))
    Dict.empty = Raise e →
  ∃ files',
    main leaf router gethostbyaddr files = (Raise e, files')
    ∧ Fs.content (noip_file (hostname leaf)) files'
      = Fs.content (noip_file (hostname leaf)) files
        ++ unresolved_lines local (arp_dict (leaf_arp leaf))
    ∧ files' !! ip_file (hostname leaf) = files !! ip_file (hostname leaf)
    ∧ ∀ f, f ≠ noip_file (hostname leaf) → files' !! f = files !! f.
Proof.
  intros Hl Hr Hrt.
  destruct (resolve_spec (hostname leaf) local (arp_dict (leaf_arp leaf))
              (files, [])) as (Hc & Hf & _).
  eexists. split; [|split; [exact Hc|split; [|exact Hf]]].
  - unfold main, collect. by rewrite Hl, Hr, Hrt.
  - apply Hf. intros H. by apply (noip_file_ne_ip_file (hostname leaf)).
Qed.

Lemma router_failure_report_witness :
  ∃ files',
    main Scenario.mixed_leaf Scenario.flaky_router Scenario.dns ∅
    = (Raise ConnectionError, files')
    ∧ Fs.content (noip_file "leaf1") files'
      = Fs.content (noip_file "leaf1") ∅
        ++ unresolved_lines
             [("aabb.cc00.1122",
               {| info_interface := "Ethernet1"; info_vlanId := 10 |})]
             (arp_dict [])
    ∧ files' !! ip_file "leaf1" = (∅ : Fs.t) !! ip_file "leaf1"
    ∧ ∀ f, f ≠ noip_file "leaf1" → files' !! f = (∅ : Fs.t) !! f.
Proof.
  refine (router_failure_report Scenario.mixed_leaf Scenario.flaky_router
            Scenario.dns ∅ _
            [("aabb.cc00.3333",
              {| info_interface := "Ethernet3"; info_vlanId := 30 |})]
            ConnectionError _ _ _).
  - vm_compute. reflexivity.
  - vm_compute. reflexivity.
  - vm_compute. reflexivity.
Defined.

Lemma abort_atomicity_counterexample :
  (main Scenario.mixed_leaf Scenario.flaky_router Scenario.dns ∅).1
  = Raise ConnectionError
  ∧ Fs.content "leaf1-noip.txt"
      (main Scenario.mixed_leaf Scenario.flaky_router Scenario.dns ∅).2
    = ["MAC Address: aabb.cc00.1122 in VLAN: 10 on port Ethernet1 does not resolve to an IP address"
       +:+ nl].
Proof. split; vm_compute; reflexivity. Qed.



(** * Further properties of the script *)

(** ** How the stages compose *)

Section RunFacts.

Lemma resolve_all_resolved hostname (macs : Dict.t mac_info) arp (st : state) :
  unresolved_lines macs arp = [] → (resolve hostname macs arp st).1 = st.1.
Proof.
  unfold resolve, unresolved_lines, Dict.items. revert st.
  induction macs as [|[m info] macs IH]; intros st; [done|].
  cbn [flat_map fold_left fst snd].
  destruct (PyStr.mem m (Dict.values arp)) eqn:Hm; [|done].
  intros Hnil. rewrite (IH _ Hnil).
  by rewrite resolve_mac_resolved by by apply mem_spec.
Qed.

Lemma collect_ok (leaf : leaf_replies) router (files : Fs.t) local routed idx :
  local_macs (macadds (show_macs leaf)) (vlan_ints (interfaces leaf)) = Ok local →
  routed_macs (macadds (show_macs leaf)) (vlan_ints (interfaces leaf)) = Ok routed →
  router_arp router
    (router_vlans (leaf_vlans (show_vlans leaf)) (vlan_ints (interfaces leaf)))
    Dict.empty = Ok idx →
  collect leaf router files
  = (Ok (resolved_addresses local (arp_dict (leaf_arp leaf))
         ++ resolved_addresses routed idx),
     (resolve (hostname leaf) routed idx
        (resolve (hostname leaf) local (arp_dict (leaf_arp leaf)) (files, []))).1).
Proof.
  intros Hl Hr Hrt. unfold collect. rewrite Hl, Hr, Hrt. f_equal. f_equal.
  destruct (resolve_spec (hostname leaf) routed idx
              (resolve (hostname leaf) local (arp_dict (leaf_arp leaf)) (files, [])))
    as (_ & _ & ->).
  destruct (resolve_spec (hostname leaf) local (arp_dict (leaf_arp leaf)) (files, []))
    as (_ & _ & ->).
  done.
Qed.

(** a run that ends well went through every stage *)
Lemma main_ok_inv (leaf : leaf_replies) router gethostbyaddr (files files' : Fs.t) :
  main leaf router gethostbyaddr files = (Ok (), files') →
  ∃ local routed idx ips,
    local_macs (macadds (show_macs leaf)) (vlan_ints (interfaces leaf)) = Ok local
    ∧ routed_macs (macadds (show_macs leaf)) (vlan_ints (interfaces leaf)) = Ok routed
    ∧ router_arp router
        (router_vlans (leaf_vlans (show_vlans leaf)) (vlan_ints (interfaces leaf)))
        Dict.empty = Ok idx
    ∧ sorted_ips (resolved_addresses local (arp_dict (leaf_arp leaf))
                  ++ resolved_addresses routed idx) = Ok ips.
Proof.
  unfold main.
  destruct (local_macs _ _) as [local|] eqn:Hl;
    [|unfold collect; by rewrite Hl].
  destruct (routed_macs _ _) as [routed|] eqn:Hr;
    [|unfold collect; by rewrite Hl, Hr].
  destruct (router_arp router _ Dict.empty) as [idx|] eqn:Hrt;
    [|unfold collect; by rewrite Hl, Hr, Hrt].
  rewrite (collect_ok leaf router files local routed idx Hl Hr Hrt).
  destruct (sorted_ips _) as [ips|] eqn:Hs; [|done].
  intros _. by exists local, routed, idx, ips.
Qed.

Lemma mac_key_raises e x : mac_key e = Raise x → x = IndexError.
Proof.
  unfold mac_key, format_address, PyStr.format_mac.
  destruct (PyStr.split _ _) as [|? [|? [|? [|? [|? [|? ?]]]]]]; congruence.
Qed.

Lemma mac_key_short e :
  (length (PyStr.split ":" (macAddress e)) < 6)%nat ↔ mac_key e = Raise IndexError.
Proof.
  unfold mac_key, format_address, PyStr.format_mac.
  destruct (PyStr.split _ _) as [|? [|? [|? [|? [|? [|? ?]]]]]]; simpl;
    split; (done || lia).
Qed.

Lemma mac_dict_raises cond l d x : mac_dict cond l d = Raise x → x = IndexError.
Proof.
  revert d. induction l as [|e l IH]; intros d; simpl; [done|].
  destruct (cond e); [|apply IH].
  destruct (mac_key e) as [k|y] eqn:Hk; simpl; [apply IH|].
  intros [= <-]. by apply mac_key_raises in Hk.
Qed.

Lemma mac_dict_bad_row cond l d e :
  e ∈ l → cond e = true → mac_key e = Raise IndexError →
  mac_dict cond l d = Raise IndexError.
Proof.
  intros Hin Hc Hk.
  destruct (mac_dict cond l d) as [d'|x] eqn:Hd.
  - destruct (mac_dict_keys_ok _ _ _ _ _ Hd Hin Hc) as [k Hk']. congruence.
  - by apply mac_dict_raises in Hd as ->.
Qed.

Lemma mac_dict_total cond l d :
  (∀ e, e ∈ l → cond e = true → ∃ k, mac_key e = Ok k) →
  ∃ d', mac_dict cond l d = Ok d'.
Proof.
  revert d. induction l as [|e l IH]; intros d Hok; simpl; [by eexists|].
  assert (∀ e', e' ∈ l → cond e' = true → ∃ k, mac_key e' = Ok k) as Hl.
  { intros e' Hin. apply Hok. apply elem_of_cons. by right. }
  destruct (cond e) eqn:Hc; [|by apply IH].
  destruct (Hok e) as [k ->]; [apply elem_of_cons; by left|done|].
  simpl. by apply IH.
Qed.

Lemma ip_int_from_string_raises s x :
  IPv4.ip_int_from_string s = Raise x → x = AddressValueError.
Proof.
  assert (∀ o y, IPv4.parse_octet o = Raise y → y = AddressValueError) as Ho.
  { intros o y. unfold IPv4.parse_octet. destruct o as [|c o]; [congruence|].
    repeat match goal with
           | |- context [if ?b then _ else _] => destruct b
           end; congruence. }
  unfold IPv4.ip_int_from_string.
  destruct (PyStr.split "." s) as [|o1 [|o2 [|o3 [|o4 [|? ?]]]]]; try congruence.
  destruct (IPv4.parse_octet o1) eqn:H1; simpl; [|intros [= <-]; eauto].
  destruct (IPv4.parse_octet o2) eqn:H2; simpl; [|intros [= <-]; eauto].
  destruct (IPv4.parse_octet o3) eqn:H3; simpl; [|intros [= <-]; eauto].
  destruct (IPv4.parse_octet o4) eqn:H4; simpl; [done|intros [= <-]; eauto].
Qed.

Lemma decorate_raises {A} (key : A → result N) l x :
  Sorted.decorate key l = Raise x → ∃ a, a ∈ l ∧ key a = Raise x.
Proof.
  induction l as [|a l IH]; simpl; [done|].
  destruct (key a) as [n|y] eqn:Hk; simpl.
  - destruct (Sorted.decorate key l) as [dl|y]; simpl; [done|].
    intros [= <-]. destruct (IH eq_refl) as (b & Hb & Hkb).
    exists b. split; [apply elem_of_cons; by right|done].
  - intros [= <-]. exists a. split; [apply elem_of_cons; by left|done].
Qed.

End RunFacts.

(** X1. A run whose partitions can be built, whose router queries all
    succeed and whose addresses all parse ends without an exception.  It
    appends to the no-IP report the lines of the local partition, looked up
    in the leaf's ARP index, then those of the routed partition, looked up
    in the router's index; it appends to the resolved-name report one line
    per collected address, in sorted order; and it touches no other file. *)
Theorem run_report (leaf : leaf_replies) router gethostbyaddr (files : Fs.t)
    local routed idx ips :
  local_macs (macadds (show_macs leaf)) (vlan_ints (interfaces leaf)) = Ok local →
  routed_macs (macadds (show_macs leaf)) (vlan_ints (interfaces leaf)) = Ok routed →
  router_arp router
    (router_vlans (leaf_vlans (show_vlans leaf)) (vlan_ints (interfaces leaf)))
    Dict.empty = Ok idx →
  sorted_ips (resolved_addresses local (arp_dict (leaf_arp leaf))
              ++ resolved_addresses routed idx) = Ok ips →
  ∃ files',
    main leaf router gethostbyaddr files = (Ok (), files')
    ∧ Fs.content (noip_file (hostname leaf)) files'
      = Fs.content (noip_file (hostname leaf)) files
        ++ unresolved_lines local (arp_dict (leaf_arp leaf))
        ++ unresolved_lines routed idx
    ∧ Fs.content (ip_file (hostname leaf)) files'
      = Fs.content (ip_file (hostname leaf)) files
        ++ map (name_line gethostbyaddr) ips
    ∧ (∀ f, f ≠ noip_file (hostname leaf) → f ≠ ip_file (hostname leaf) →
            files' !! f = files !! f).
Proof.
  intros Hl Hr Hrt Hs. eexists. split.
  { unfold main. by rewrite (collect_ok _ _ _ _ _ _ Hl Hr Hrt), Hs. }
  set (st1 := resolve (hostname leaf) local (arp_dict (leaf_arp leaf)) (files, [])).
  set (st2 := resolve (hostname leaf) routed idx st1).
  destruct (resolve_spec (hostname leaf) local (arp_dict (leaf_arp leaf))
              (files, [])) as (Hc1 & Hf1 & _). fold st1 in Hc1, Hf1.
  destruct (resolve_spec (hostname leaf) routed idx st1) as (Hc2 & Hf2 & _).
  fold st2 in Hc2, Hf2.
  destruct (write_names_spec gethostbyaddr (hostname leaf) ips st2.1) as (Hc3 & Hf3).
  pose proof (noip_file_ne_ip_file (hostname leaf)) as Hne.
  split; [|split].
  - unfold Fs.content at 1. rewrite Hf3 by done.
    fold (Fs.content (noip_file (hostname leaf)) st2.1).
    by rewrite Hc2, Hc1, <- app_assoc.
  - rewrite Hc3. unfold Fs.content.
    by rewrite Hf2, Hf1 by (intros H; by apply Hne).
  - intros f Hn Hi. by rewrite Hf3, Hf2, Hf1.
Qed.

Lemma run_report_witness :
  ∃ files',
    main Scenario.mixed_leaf (λ _, Ok []) Scenario.dns ∅ = (Ok (), files')
    ∧ Fs.content (noip_file "leaf1") files'
      = Fs.content (noip_file "leaf1") ∅
        ++ unresolved_lines
             [("aabb.cc00.1122",
               {| info_interface := "Ethernet1"; info_vlanId := 10 |})]
             (arp_dict [])
        ++ unresolved_lines
             [("aabb.cc00.3333",
               {| info_interface := "Ethernet3"; info_vlanId := 30 |})] []
    ∧ Fs.content (ip_file "leaf1") files'
      = Fs.content (ip_file "leaf1") ∅ ++ map (name_line Scenario.dns) []
    ∧ (∀ f, f ≠ noip_file "leaf1" → f ≠ ip_file "leaf1" →
            files' !! f = (∅ : Fs.t) !! f).
Proof.
  refine (run_report Scenario.mixed_leaf (λ _, Ok []) Scenario.dns ∅
            _ _ _ _ _ _ _ _); vm_compute; reflexivity.
Defined.

Section ReportFileFacts.

Lemma write_names_created gethostbyaddr host ips (files : Fs.t) :
  is_Some (write_names gethostbyaddr host ips files !! ip_file host).
Proof.
  unfold write_names.
  assert (is_Some (Fs.open_append (ip_file host) files !! ip_file host)) as H.
  { unfold Fs.open_append, Fs.t. rewrite lookup_insert_eq. by eexists. }
  revert H. generalize (Fs.open_append (ip_file host) files).
  induction ips as [|ip ips IH]; intros fs Hfs; simpl; [done|].
  apply IH. unfold Fs.append, Fs.t. rewrite lookup_insert_eq. by eexists.
Qed.

Lemma resolve_some_unresolved hostname (macs : Dict.t mac_info) arp (st : state) :
  unresolved_lines macs arp ≠ [] →
  is_Some ((resolve hostname macs arp st).1 !! noip_file hostname).
Proof.
  intros Hne.
  destruct (resolve_spec hostname macs arp st) as (Hc & _ & _).
  unfold Fs.content in Hc at 1.
  destruct ((resolve hostname macs arp st).1 !! noip_file hostname); [by eexists|].
  simpl in Hc. symmetry in Hc. apply app_eq_nil in Hc as [_ Hc]. done.
Qed.

Lemma resolve_keeps_file hostname (macs : Dict.t mac_info) arp (st : state) f :
  is_Some (st.1 !! f) → is_Some ((resolve hostname macs arp st).1 !! f).
Proof.
  unfold resolve, Dict.items. revert st.
  induction macs as [|[m info] macs IH]; intros st Hf; [done|].
  cbn [fold_left]. apply IH. unfold resolve_mac.
  destruct (negb (PyStr.mem m (Dict.values arp))); [|done]. simpl.
  unfold Fs.append, Fs.t. destruct (decide (noip_file hostname = f)) as [->|Hne].
  - rewrite lookup_insert_eq. by eexists.
  - by rewrite lookup_insert_ne.
Qed.

End ReportFileFacts.

(** X2. Which report files a run that ends well leaves behind.  The
    resolved-name report is opened in every such run, so it exists
    afterwards even when no address was collected.  The no-IP report is
    opened only to write a line: it exists afterwards when some host of
    either partition has no address, and when every host has one it is
    left as it was, missing if it was missing. *)
Theorem report_files_created (leaf : leaf_replies) router gethostbyaddr
    (files : Fs.t) local routed idx ips :
  local_macs (macadds (show_macs leaf)) (vlan_ints (interfaces leaf)) = Ok local →
  routed_macs (macadds (show_macs leaf)) (vlan_ints (interfaces leaf)) = Ok routed →
  router_arp router
    (router_vlans (leaf_vlans (show_vlans leaf)) (vlan_ints (interfaces leaf)))
    Dict.empty = Ok idx →
  sorted_ips (resolved_addresses local (arp_dict (leaf_arp leaf))
              ++ resolved_addresses routed idx) = Ok ips →
  ∃ files',
    main leaf router gethostbyaddr files = (Ok (), files')
    ∧ is_Some (files' !! ip_file (hostname leaf))
    ∧ (unresolved_lines local (arp_dict (leaf_arp leaf)) = [] →
       unresolved_lines routed idx = [] →
       files' !! noip_file (hostname leaf) = files !! noip_file (hostname leaf))
    ∧ (unresolved_lines local (arp_dict (leaf_arp leaf))
       ++ unresolved_lines routed idx ≠ [] →
       is_Some (files' !! noip_file (hostname leaf))).
Proof.
  intros Hl Hr Hrt Hs. eexists. split.
  { unfold main. by rewrite (collect_ok _ _ _ _ _ _ Hl Hr Hrt), Hs. }
  set (st1 := resolve (hostname leaf) local (arp_dict (leaf_arp leaf)) (files, [])).
  set (st2 := resolve (hostname leaf) routed idx st1).
  destruct (write_names_spec gethostbyaddr (hostname leaf) ips st2.1) as (_ & Hf3).
  pose proof (noip_file_ne_ip_file (hostname leaf)) as Hne.
  split; [apply write_names_created|]. split.
  - intros H1 H2. rewrite Hf3 by done. unfold st2, st1.
    by rewrite !resolve_all_resolved.
  - intros Hsome. rewrite Hf3 by done.
    destruct (unresolved_lines routed idx) as [|x r] eqn:H2.
    + rewrite app_nil_r in Hsome. unfold st2.
      apply resolve_keeps_file. unfold st1. by apply resolve_some_unresolved.
    + unfold st2. apply resolve_some_unresolved. by rewrite H2.
Qed.

Lemma report_files_created_witness :
  ∃ files',
    main Scenario.duplicate_leaf (λ _, Ok []) Scenario.dns ∅ = (Ok (), files')
    ∧ is_Some (files' !! ip_file "leaf1")
    ∧ (unresolved_lines
         [("aabb.cc00.1122", {| info_interface := "Ethernet2"; info_vlanId := 20 |})]
         (arp_dict []) = [] →
       unresolved_lines [] [] = [] →
       files' !! noip_file "leaf1" = (∅ : Fs.t) !! noip_file "leaf1")
    ∧ (unresolved_lines
         [("aabb.cc00.1122", {| info_interface := "Ethernet2"; info_vlanId := 20 |})]
         (arp_dict [])
       ++ unresolved_lines [] [] ≠ [] →
       is_Some (files' !! noip_file "leaf1")).
Proof.
  refine (report_files_created Scenario.duplicate_leaf (λ _, Ok []) Scenario.dns ∅
            _ _ _ _ _ _ _ _); vm_compute; reflexivity.
Defined.

(** X3. The reports accumulate.  Both files are opened for appending, so
    a second run on the same replies, started on the files the first run
    left, ends well too and appends the same lines once more. *)
Theorem second_run_appends (leaf : leaf_replies) router gethostbyaddr
    (files files1 : Fs.t) :
  main leaf router gethostbyaddr files = (Ok (), files1) →
  ∃ files2 noip_lines ip_lines,
    main leaf router gethostbyaddr files1 = (Ok (), files2)
    ∧ Fs.content (noip_file (hostname leaf)) files1
      = Fs.content (noip_file (hostname leaf)) files ++ noip_lines
    ∧ Fs.content (noip_file (hostname leaf)) files2
      = Fs.content (noip_file (hostname leaf)) files ++ noip_lines ++ noip_lines
    ∧ Fs.content (ip_file (hostname leaf)) files1
      = Fs.content (ip_file (hostname leaf)) files ++ ip_lines
    ∧ Fs.content (ip_file (hostname leaf)) files2
      = Fs.content (ip_file (hostname leaf)) files ++ ip_lines ++ ip_lines.
Proof.
  intros Hrun.
  destruct (main_ok_inv _ _ _ _ _ Hrun) as (local & routed & idx & ips & Hl & Hr & Hrt & Hs).
  destruct (run_report leaf router gethostbyaddr files _ _ _ _ Hl Hr Hrt Hs)
    as (f1 & Hm1 & Hn1 & Hi1 & _).
  destruct (run_report leaf router gethostbyaddr files1 _ _ _ _ Hl Hr Hrt Hs)
    as (f2 & Hm2 & Hn2 & Hi2 & _).
  assert (f1 = files1) as -> by congruence.
  exists f2, (unresolved_lines local (arp_dict (leaf_arp leaf))
              ++ unresolved_lines routed idx),
         (map (name_line gethostbyaddr) ips).
  split; [done|]. rewrite Hn2, Hi2, Hn1, Hi1.
  by rewrite <- !app_assoc.
Qed.

Lemma second_run_appends_witness :
  ∃ files2 noip_lines ip_lines,
    main Scenario.mixed_leaf (λ _, Ok []) Scenario.dns
      (main Scenario.mixed_leaf (λ _, Ok []) Scenario.dns ∅).2 = (Ok (), files2)
    ∧ Fs.content (noip_file "leaf1")
        (main Scenario.mixed_leaf (λ _, Ok []) Scenario.dns ∅).2
      = Fs.content (noip_file "leaf1") ∅ ++ noip_lines
    ∧ Fs.content (noip_file "leaf1") files2
      = Fs.content (noip_file "leaf1") ∅ ++ noip_lines ++ noip_lines
    ∧ Fs.content (ip_file "leaf1")
        (main Scenario.mixed_leaf (λ _, Ok []) Scenario.dns ∅).2
      = Fs.content (ip_file "leaf1") ∅ ++ ip_lines
    ∧ Fs.content (ip_file "leaf1") files2
      = Fs.content (ip_file "leaf1") ∅ ++ ip_lines ++ ip_lines.
Proof.
  refine (second_run_appends Scenario.mixed_leaf (λ _, Ok []) Scenario.dns ∅ _ _).
  vm_compute. reflexivity.
Defined.

(** X4. The sort is the only place where an address is parsed.  When some
    collected address is not a dotted quad of four decimal octets the run
    ends there with AddressValueError: it has already written the no-IP
    lines of both partitions and has not touched the resolved-name
    report. *)
Theorem unparsable_address_aborts (leaf : leaf_replies) router gethostbyaddr
    (files : Fs.t) local routed idx :
  local_macs (macadds (show_macs leaf)) (vlan_ints (interfaces leaf)) = Ok local →
  routed_macs (macadds (show_macs leaf)) (vlan_ints (interfaces leaf)) = Ok routed →
  router_arp router
    (router_vlans (leaf_vlans (show_vlans leaf)) (vlan_ints (interfaces leaf)))
    Dict.empty = Ok idx →
  (∃ a, a ∈ resolved_addresses local (arp_dict (leaf_arp leaf))
            ++ resolved_addresses routed idx
        ∧ IPv4.ip_int_from_string a = Raise AddressValueError) →
  ∃ files',
    main leaf router gethostbyaddr files = (Raise AddressValueError, files')
    ∧ Fs.content (noip_file (hostname leaf)) files'
      = Fs.content (noip_file (hostname leaf)) files
        ++ unresolved_lines local (arp_dict (leaf_arp leaf))
        ++ unresolved_lines routed idx
    ∧ files' !! ip_file (hostname leaf) = files !! ip_file (hostname leaf).
Proof.
  intros Hl Hr Hrt (a & Ha & Hbad).
  set (ip_addrs := resolved_addresses local (arp_dict (leaf_arp leaf))
                   ++ resolved_addresses routed idx) in *.
  assert (sorted_ips ip_addrs = Raise AddressValueError) as Hs.
  { unfold sorted_ips, Sorted.sorted.
    destruct (Sorted.decorate IPv4.ip_int_from_string ip_addrs) as [dl|x] eqn:Hd.
    - apply decorate_spec in Hd as [Hm Hk]. subst ip_addrs. rewrite <- Hm in Ha.
      apply list_elem_of_fmap in Ha as (d & -> & Hd).
      rewrite Forall_forall in Hk. specialize (Hk d Hd). congruence.
    - simpl. apply decorate_raises in Hd as (b & _ & Hb).
      by apply ip_int_from_string_raises in Hb as ->. }
  eexists. split.
  { unfold main. rewrite (collect_ok _ _ _ _ _ _ Hl Hr Hrt).
    fold ip_addrs. by rewrite Hs. }
  set (st1 := resolve (hostname leaf) local (arp_dict (leaf_arp leaf)) (files, [])).
  destruct (resolve_spec (hostname leaf) local (arp_dict (leaf_arp leaf))
              (files, [])) as (Hc1 & Hf1 & _). fold st1 in Hc1, Hf1.
  destruct (resolve_spec (hostname leaf) routed idx st1) as (Hc2 & Hf2 & _).
  pose proof (noip_file_ne_ip_file (hostname leaf)) as Hne.
  split.
  - by rewrite Hc2, Hc1, <- app_assoc.
  - by rewrite Hf2, Hf1 by (intros H; by apply Hne).
Qed.

Lemma unparsable_address_aborts_witness :
  ∃ files',
    main Scenario.padded_address_leaf (λ _, Ok []) Scenario.dns ∅
    = (Raise AddressValueError, files')
    ∧ Fs.content (noip_file "leaf1") files'
      = Fs.content (noip_file "leaf1") ∅
        ++ unresolved_lines
             [("aabb.cc00.1122",
               {| info_interface := "Ethernet1"; info_vlanId := 10 |})]
             (arp_dict [Scenario.arp "10.0.10.05" "aabb.cc00.1122"])
        ++ unresolved_lines [] []
    ∧ files' !! ip_file "leaf1" = (∅ : Fs.t) !! ip_file "leaf1".
Proof.
  refine (unparsable_address_aborts Scenario.padded_address_leaf (λ _, Ok [])
            Scenario.dns ∅ _ [] [] _ _ _ _).
  - vm_compute. reflexivity.
  - vm_compute. reflexivity.
  - vm_compute. reflexivity.
  - exists "10.0.10.05". split; [solve_decide|vm_compute; reflexivity].
Defined.

(** X5. Which VLAN numbers count as locally routed.  A row of VLAN [v] is
    sent to the local partition exactly when [v], written in decimal, lies
    between 0 and 9999, is neither 4093 nor 4094, and the reply to
    [show ip interface] has an entry under [Vlan<v>] whose
    [lineProtocolStatus] is the text [up].  The pattern puts no other bound
    on [v]: 1 and the numbers above 4094 pass. *)
Theorem locally_routed_vlan (ifs : Dict.t ip_interface) (e : mac_entry) :
  is_local (vlan_ints ifs) e = true
  ↔ 0 ≤ vlanId e ≤ 9999 ∧ vlanId e ≠ 4093 ∧ vlanId e ≠ 4094
    ∧ ∃ i, Dict.get ifs ("Vlan" +:+ pretty (vlanId e)) = Some i
           ∧ lineProtocolStatus i = "up".
Proof. apply is_local_status. Qed.

(** X6. Which VLANs of the VLAN database get a Locality verdict.  A VLAN
    whose key is the decimal text of [v] is kept by the filter of
    [leaf_vlans] exactly when [v] lies between 0 and 9999 and is none of 1,
    4093 and 4094. *)
Theorem leaf_vlans_numbers (show_vlans : list string) (v : Z) :
  pretty v ∈ leaf_vlans show_vlans
  ↔ pretty v ∈ show_vlans ∧ 0 ≤ v ≤ 9999 ∧ v ≠ 1 ∧ v ≠ 4093 ∧ v ≠ 4094.
Proof.
  unfold leaf_vlans.
  by rewrite list_elem_of_In, filter_In, <- list_elem_of_In, vlan_number_accepts.
Qed.

(** X7. The VLANs with a verdict are split in two, in the order of the VLAN
    database: those that have an active layer-3 interface on the leaf and
    those the router is asked about.  No VLAN is in both lists, and the
    router is never asked about VLAN 1, 4093 or 4094, nor about a VLAN the
    VLAN database does not list. *)
Theorem router_vlans_split (show_vlans vlan_ints : list string) :
  local_vlans (leaf_vlans show_vlans) vlan_ints
  ++ router_vlans (leaf_vlans show_vlans) vlan_ints ≡ₚ leaf_vlans show_vlans
  ∧ (∀ vlan, vlan ∈ local_vlans (leaf_vlans show_vlans) vlan_ints →
             vlan ∉ router_vlans (leaf_vlans show_vlans) vlan_ints)
  ∧ sublist (router_vlans (leaf_vlans show_vlans) vlan_ints) show_vlans
  ∧ (∀ vlan, vlan ∈ router_vlans (leaf_vlans show_vlans) vlan_ints →
             ("Vlan" +:+ vlan ∉ vlan_ints)
             ∧ vlan ≠ "1" ∧ vlan ≠ "4093" ∧ vlan ≠ "4094").
Proof.
  unfold local_vlans, router_vlans. split; [|split; [|split]].
  - generalize (leaf_vlans show_vlans). intros l.
    induction l as [|x l IH]; simpl; [done|].
    destruct (PyStr.mem ("Vlan" +:+ x) vlan_ints); simpl.
    + by rewrite IH.
    + by rewrite <- Permutation_middle, IH.
  - intros vlan [_ H1]%list_elem_of_In%filter_In [_ H2]%list_elem_of_In%filter_In.
    rewrite H1 in H2. done.
  - transitivity (leaf_vlans show_vlans).
    + generalize (leaf_vlans show_vlans). intros l.
      induction l as [|x l IH]; simpl; [done|].
      destruct (negb _); by constructor.
    + unfold leaf_vlans. induction show_vlans as [|x l IH]; simpl; [done|].
      destruct (Re.re_match _ x); by constructor.
  - intros vlan [Hl Hm]%list_elem_of_In%filter_In.
    apply negb_true_iff, mem_false in Hm. split; [done|].
    unfold leaf_vlans in Hl. apply filter_In in Hl as [_ Hre].
    repeat split; intros ->; vm_compute in Hre; discriminate.
Qed.

(** ** The filter of the address table *)

Section FilterFacts.
Import Re.

Lemma star_tempered_stop bad s i k :
  (String.length s ≤ i)%nat →
  rmatch (Star (Cat (NotAhead bad) Any)) s i k = k i.
Proof.
  intros Hi. assert (String.length s - i = 0)%nat as Hn by lia.
  simpl. by rewrite Hn.
Qed.

Lemma star_tempered_step bad s i k :
  (i < String.length s)%nat →
  rmatch (Star (Cat (NotAhead bad) Any)) s i k
  = (tempered_at bad s i && rmatch (Star (Cat (NotAhead bad) Any)) s (S i) k
     || k i)%bool.
Proof.
  intros Hi.
  assert (∃ n, String.length s - i = S n ∧ String.length s - S i = n)%nat
    as (n & Hn & Hn') by (exists (String.length s - S i)%nat; lia).
  unfold tempered_at. simpl. rewrite Hn, Hn'.
  assert (Nat.ltb i (S i) = true) as Hlt by (apply Nat.ltb_lt; lia).
  destruct (rmatch bad s i _); [done|]. simpl.
  destruct (String.get i s) as [c|]; [|done].
  destruct (Ascii.eqb c PyStr.newline); [done|]. simpl.
  by rewrite Hlt.
Qed.

Lemma get_None_length s i : (String.length s ≤ i)%nat → String.get i s = None.
Proof.
  revert i. induction s as [|c s IH]; intros i Hi; [by destruct i|].
  destruct i as [|i]; simpl in *; [lia|]. apply IH. lia.
Qed.

Lemma get_Some_length s i : (i < String.length s)%nat → ∃ c, String.get i s = Some c.
Proof.
  revert i. induction s as [|c s IH]; intros i Hi; simpl in *; [lia|].
  destruct i as [|i]; [by eexists|]. apply IH. lia.
Qed.

Lemma star_tempered bad s k n i :
  (String.length s - i ≤ n)%nat →
  rmatch (Star (Cat (NotAhead bad) Any)) s i k = true
  ↔ ∃ j, (i ≤ j)%nat
         ∧ (∀ p, (i ≤ p < j)%nat → tempered_at bad s p = true)
         ∧ k j = true.
Proof.
  revert i. induction n as [|n IH]; intros i Hn;
    destruct (le_lt_dec (String.length s) i) as [Hi|Hi]; try lia.
  1,2: rewrite star_tempered_stop by done; split;
    [ intros Hk; exists i; split; [lia|]; split; [|done]; intros p Hp; lia
    | intros (j & Hij & Hok & Hk);
      destruct (decide (j = i)) as [->|Hne]; [done|];
      specialize (Hok i ltac:(lia)); unfold tempered_at in Hok;
      rewrite get_None_length in Hok by lia;
      by rewrite andb_false_r in Hok ].
  rewrite star_tempered_step by done.
  rewrite orb_true_iff, andb_true_iff, (IH (S i)) by lia. split.
  - intros [[Hok (j & Hij & Hoks & Hk)]|Hk].
    + exists j. split; [lia|]. split; [|done]. intros p Hp.
      destruct (decide (p = i)) as [->|]; [done|]. apply Hoks. lia.
    + exists i. split; [lia|]. split; [|done]. intros p Hp. lia.
  - intros (j & Hij & Hoks & Hk).
    destruct (decide (j = i)) as [->|Hne]; [by right|]. left.
    split; [apply Hoks; lia|].
    exists j. split; [lia|]. split; [|done]. intros p Hp. apply Hoks. lia.
Qed.

Lemma tempered_match bad s :
  re_match (tempered bad) s = true
  ↔ ∃ j, (∀ p, (p < j)%nat → tempered_at bad s p = true) ∧ at_end s j = true.
Proof.
  unfold re_match, tempered.
  change (rmatch (Cat Bos (Cat (Star (Cat (NotAhead bad) Any)) Eos)) s 0 (λ _, true))
    with (rmatch (Star (Cat (NotAhead bad) Any)) s 0
            (λ j, rmatch Eos s j (λ _, true))).
  rewrite (star_tempered bad s _ (String.length s) 0) by lia. split.
  - intros (j & _ & Hok & He). apply rmatch_Eos in He as [He _].
    exists j. split; [|done]. intros p Hp. apply Hok. lia.
  - intros (j & Hok & He). exists j. split; [lia|]. split.
    + intros p Hp. apply Hok. lia.
    + simpl. by rewrite He.
Qed.

Lemma length_skip i s : String.length (skip i s) = (String.length s - i)%nat.
Proof.
  revert s. induction i as [|i IH]; intros s; simpl; [lia|].
  destruct s as [|c s]; [done|]. simpl. apply IH.
Qed.

Lemma skip_get i s :
  skip i s = match String.get i s with
             | Some c => String c (skip (S i) s)
             | None => EmptyString
             end.
Proof.
  revert s. induction i as [|i IH]; intros s.
  - destruct s as [|c s]; [done|]. simpl. by destruct s.
  - destruct s as [|c s]; [done|]. simpl String.get.
    change (skip (S i) (String c s)) with (skip i s). rewrite IH.
    by destruct (String.get i s).
Qed.

Lemma rmatch_lits_prefix w s i :
  rmatch (lits w) s i (λ _, true) = starts_with w (skip i s).
Proof.
  revert i. induction w as [|c w IH]; intros i; [done|].
  change (lits (String c w)) with (Cat (Lit c) (lits w)).
  rewrite rmatch_Cat. simpl rmatch at 1. rewrite (skip_get i s).
  destruct (String.get i s) as [c'|]; [|done]. simpl.
  destruct (Ascii.eqb c c'); [apply IH|done].
Qed.

Lemma prefix_length w t :
  starts_with w t = true → (String.length w ≤ String.length t)%nat.
Proof.
  revert t. induction w as [|c w IH]; intros t; simpl; [lia|].
  destruct t as [|c' t]; [done|]. intros [_ H%IH]%andb_true_iff. simpl. lia.
Qed.

Lemma contains_skip w s :
  contains w s = true ↔ ∃ i, starts_with w (skip i s) = true.
Proof.
  induction s as [|c s IH].
  - simpl. rewrite orb_false_r. split; [by exists 0%nat|].
    intros [i Hi]. by destruct i.
  - cbn [contains]. rewrite orb_true_iff, IH. split.
    + intros [H|[i Hi]]; [by exists 0%nat|by exists (S i)].
    + intros [[|i] Hi]; [by left|right; by exists i].
Qed.

Lemma contains_false w s :
  contains w s = false ↔ ∀ i, rmatch (lits w) s i (λ _, true) = false.
Proof.
  split.
  - intros Hc i. rewrite rmatch_lits_prefix.
    destruct (starts_with w (skip i s)) eqn:Hp; [|done].
    assert (contains w s = true) by (apply contains_skip; by exists i).
    congruence.
  - intros Hall. destruct (contains w s) eqn:Hc; [|done].
    apply contains_skip in Hc as [i Hi]. by rewrite <- rmatch_lits_prefix, Hall in Hi.
Qed.

(** a word of two characters needs two characters of the subject *)
Lemma lits_two_chars w s i :
  String.length w = 2%nat →
  rmatch (lits w) s i (λ _, true) = true → (S i < String.length s)%nat.
Proof.
  intros Hw. rewrite rmatch_lits_prefix. intros H%prefix_length.
  rewrite length_skip in H. lia.
Qed.

Lemma tempered_sound bad s :
  (∀ i, rmatch bad s i (λ _, true) = true → (S i < String.length s)%nat) →
  re_match (tempered bad) s = true →
  ∀ i, rmatch bad s i (λ _, true) = false.
Proof.
  intros Hbad (j & Hok & He)%tempered_match i.
  destruct (rmatch bad s i (λ _, true)) eqn:Hb; [|done].
  apply Hbad in Hb as Hi.
  assert (i < j)%nat as Hij.
  { unfold at_end in He. apply orb_true_iff in He as [He|He].
    - apply Nat.eqb_eq in He. lia.
    - apply andb_true_iff in He as [He%Nat.eqb_eq _]. lia. }
  specialize (Hok i Hij). unfold tempered_at in Hok. by rewrite Hb in Hok.
Qed.

Lemma has_char_get c s i : PyStr.has_char c s = false → String.get i s ≠ Some c.
Proof.
  revert i. induction s as [|c' s IH]; intros i; simpl; [by destruct i|].
  intros [Hc Hs]%orb_false_iff. destruct i as [|i]; [|by apply IH].
  intros [= ->]. by rewrite Ascii.eqb_refl in Hc.
Qed.

Lemma tempered_complete bad s :
  (∀ i, rmatch bad s i (λ _, true) = false) →
  PyStr.has_char PyStr.newline s = false →
  re_match (tempered bad) s = true.
Proof.
  intros Hbad Hnl. apply tempered_match. exists (String.length s). split.
  - intros p Hp. unfold tempered_at. rewrite Hbad. simpl.
    destruct (get_Some_length s p Hp) as [c Hc]. rewrite Hc.
    destruct (Ascii.eqb_spec c PyStr.newline) as [->|]; [|done].
    by apply has_char_get with (i := p) in Hnl.
  - unfold at_end. by rewrite Nat.eqb_refl.
Qed.

Lemma rmatch_Or r1 r2 s i k :
  rmatch (Or r1 r2) s i k = (rmatch r1 s i k || rmatch r2 s i k)%bool.
Proof. reflexivity. Qed.

Lemma not_Vx_Ro_spec s :
  (re_match not_Vx_Ro s = true →
   contains "Vx" s = false ∧ contains "Ro" s = false)
  ∧ (contains "Vx" s = false → contains "Ro" s = false →
     PyStr.has_char PyStr.newline s = false → re_match not_Vx_Ro s = true).
Proof.
  change not_Vx_Ro with (tempered (Or (lits "Vx") (lits "Ro"))). split.
  - intros H. rewrite !contains_false.
    assert (∀ i, rmatch (Or (lits "Vx") (lits "Ro")) s i (λ _, true) = false) as Hf.
    { apply tempered_sound; [|done]. intros i. rewrite rmatch_Or.
      intros [Hm|Hm]%orb_true_iff;
        [by apply (lits_two_chars "Vx")|by apply (lits_two_chars "Ro")]. }
    split; intros i; specialize (Hf i); rewrite rmatch_Or in Hf;
      by apply orb_false_iff in Hf as [? ?].
  - intros H1 H2 Hnl. apply tempered_complete; [|done].
    intros i. rewrite rmatch_Or. rewrite contains_false in H1, H2.
    by rewrite H1, H2.
Qed.

Lemma not_st_spec s :
  (re_match not_st s = true → contains "st" s = false)
  ∧ (contains "st" s = false →
     PyStr.has_char PyStr.newline s = false → re_match not_st s = true).
Proof.
  change not_st with (tempered (lits "st")). split.
  - intros H. rewrite contains_false. apply tempered_sound; [|done].
    intros i. by apply lits_two_chars.
  - intros H1 Hnl. apply tempered_complete; [|done]. by apply contains_false.
Qed.

End FilterFacts.

(** X8. The filter of the address table keeps rows of the table, in their
    order.  A kept row is learned on an interface whose name contains
    neither [Vx] nor [Ro] and has an entry type that does not contain [st].
    The other way round, a row without those substrings is kept, provided
    its interface name and entry type hold no line break. *)
Theorem macadds_filter (rows : list mac_entry) :
  sublist (macadds rows) rows
  ∧ (∀ e, e ∈ macadds rows →
       e ∈ rows
       ∧ contains "Vx" (interface e) = false
       ∧ contains "Ro" (interface e) = false
       ∧ contains "st" (entryType e) = false)
  ∧ (∀ e, e ∈ rows →
       contains "Vx" (interface e) = false →
       contains "Ro" (interface e) = false →
       contains "st" (entryType e) = false →
       PyStr.has_char PyStr.newline (interface e) = false →
       PyStr.has_char PyStr.newline (entryType e) = false →
       e ∈ macadds rows).
Proof.
  unfold macadds. split; [|split].
  - induction rows as [|x l IH]; simpl; [done|].
    destruct (_ && _); by constructor.
  - intros e [Hin [H1 H2]%andb_true_iff]%list_elem_of_In%filter_In.
    apply not_Vx_Ro_spec in H1 as [? ?]. apply not_st_spec in H2.
    split; [by apply list_elem_of_In|done].
  - intros e Hin H1 H2 H3 H4 H5. apply list_elem_of_In, filter_In.
    split; [by apply list_elem_of_In|]. apply andb_true_iff. split.
    + by apply not_Vx_Ro_spec.
    + by apply not_st_spec.
Qed.

(** X9. Every entry of a partition comes from a kept row of the address
    table: its key is the formatted MAC address of the row and its value
    the interface and VLAN of the row, the row is on the side of the
    partition, and its interface name contains neither [Vx] nor [Ro]. *)
Theorem partition_entries_from_rows (leaf : leaf_replies) local routed :
  local_macs (macadds (show_macs leaf)) (vlan_ints (interfaces leaf)) = Ok local →
  routed_macs (macadds (show_macs leaf)) (vlan_ints (interfaces leaf)) = Ok routed →
  (∀ k info, (k, info) ∈ Dict.items local →
     ∃ e, e ∈ show_macs leaf ∧ mac_key e = Ok k ∧ info = mac_value e
          ∧ is_local (vlan_ints (interfaces leaf)) e = true
          ∧ contains "Vx" (info_interface info) = false
          ∧ contains "Ro" (info_interface info) = false
          ∧ contains "st" (entryType e) = false)
  ∧ (∀ k info, (k, info) ∈ Dict.items routed →
       ∃ e, e ∈ show_macs leaf ∧ mac_key e = Ok k ∧ info = mac_value e
            ∧ is_local (vlan_ints (interfaces leaf)) e = false
            ∧ contains "Vx" (info_interface info) = false
            ∧ contains "Ro" (info_interface info) = false
            ∧ contains "st" (entryType e) = false).
Proof.
  unfold local_macs, routed_macs. intros Hl Hr.
  destruct (macadds_filter (show_macs leaf)) as (_ & Hkept & _).
  split; intros k info Hin.
  - apply elem_get_Some in Hin; [|by apply (partition_NoDup _ _ _ Hl)].
    destruct (mac_dict_origin _ _ _ _ _ Hl Hin) as (e & He & Hc & Hk & ->).
    destruct (Hkept e He) as (? & ? & ? & ?). by exists e.
  - apply elem_get_Some in Hin; [|by apply (partition_NoDup _ _ _ Hr)].
    destruct (mac_dict_origin _ _ _ _ _ Hr Hin) as (e & He & Hc & Hk & ->).
    destruct (Hkept e He) as (? & ? & ? & ?).
    apply negb_true_iff in Hc. by exists e.
Qed.

Lemma partition_entries_from_rows_witness :
  ∃ e, e ∈ show_macs Scenario.mixed_leaf
       ∧ mac_key e = Ok "aabb.cc00.1122"
       ∧ {| info_interface := "Ethernet1"; info_vlanId := 10 |} = mac_value e
       ∧ is_local (vlan_ints (interfaces Scenario.mixed_leaf)) e = true
       ∧ contains "Vx" "Ethernet1" = false
       ∧ contains "Ro" "Ethernet1" = false
       ∧ contains "st" (entryType e) = false.
Proof.
  refine (proj1 (partition_entries_from_rows Scenario.mixed_leaf
    [("aabb.cc00.1122", {| info_interface := "Ethernet1"; info_vlanId := 10 |})]
    [("aabb.cc00.3333", {| info_interface := "Ethernet3"; info_vlanId := 30 |})]
    _ _) "aabb.cc00.1122"
    {| info_interface := "Ethernet1"; info_vlanId := 10 |} _).
  - vm_compute. reflexivity.
  - vm_compute. reflexivity.
  - solve_decide.
Defined.

(** X10. The MAC address of a kept row is formatted, whichever partition
    the row goes to.  A kept row whose MAC address has fewer than six
    colon-delimited groups ends the run with IndexError before anything is
    written; when every kept row has six groups or more, both partitions
    are built.  Rows the filter drops are not formatted and cannot fail. *)
Theorem malformed_mac_aborts (leaf : leaf_replies) router gethostbyaddr
    (files : Fs.t) :
  (∀ e, e ∈ macadds (show_macs leaf) →
        (length (PyStr.split ":" (macAddress e)) < 6)%nat →
        main leaf router gethostbyaddr files = (Raise IndexError, files))
  ∧ ((∀ e, e ∈ macadds (show_macs leaf) →
           (6 ≤ length (PyStr.split ":" (macAddress e)))%nat) →
     ∃ local routed,
       local_macs (macadds (show_macs leaf)) (vlan_ints (interfaces leaf))
       = Ok local
       ∧ routed_macs (macadds (show_macs leaf)) (vlan_ints (interfaces leaf))
         = Ok routed).
Proof.
  split.
  - intros e Hin Hshort%mac_key_short. unfold main, collect.
    destruct (is_local (vlan_ints (interfaces leaf)) e) eqn:He.
    + unfold local_macs. by rewrite (mac_dict_bad_row _ _ _ e Hin He Hshort).
    + destruct (local_macs _ _) as [local|x] eqn:Hl.
      * unfold routed_macs. rewrite (mac_dict_bad_row _ _ _ e Hin); try done.
        by rewrite He.
      * unfold local_macs in Hl. by apply mac_dict_raises in Hl as ->.
  - intros Hlong.
    assert (∀ e, e ∈ macadds (show_macs leaf) → ∃ k, mac_key e = Ok k) as Hok.
    { intros e He. specialize (Hlong e He).
      destruct (mac_key e) as [k|x] eqn:Hk; [by eexists|].
      apply mac_key_raises in Hk as Hx. subst x.
      apply mac_key_short in Hk. lia. }
    destruct (mac_dict_total (is_local (vlan_ints (interfaces leaf)))
                (macadds (show_macs leaf)) Dict.empty) as [local Hl];
      [by eauto|].
    destruct (mac_dict_total (λ mac, negb (is_local (vlan_ints (interfaces leaf)) mac))
                (macadds (show_macs leaf)) Dict.empty) as [routed Hr];
      [by eauto|].
    by exists local, routed.
Qed.

Section AddressFacts.

Lemma filter_sublist {A} (f : A → bool) (l : list A) : sublist (List.filter f l) l.
Proof.
  induction l as [|x l IH]; simpl; [done|]. destruct (f x); by constructor.
Qed.

Lemma NoDup_ipadd (arp : Dict.t string) m :
  NoDup (Dict.keys arp) → NoDup (ipadd arp m).
Proof.
  intros Hnd. eapply sublist_NoDup; [exact Hnd|].
  unfold ipadd, Dict.keys, Dict.items.
  change (map fst) with (fmap (M := list) (@fst string string)).
  apply fmap_sublist, filter_sublist.
Qed.

Lemma elem_of_resolved_addresses (macs : Dict.t mac_info) (arp : Dict.t string) a :
  a ∈ resolved_addresses macs arp
  ↔ ∃ m, m ∈ Dict.keys macs ∧ (a, m) ∈ Dict.items arp.
Proof.
  unfold resolved_addresses. rewrite list_elem_of_In, in_flat_map. split.
  - intros ([m info] & Hin & Ha). exists m. split.
    + apply list_elem_of_fmap. exists (m, info).
      split; [done|by apply list_elem_of_In].
    + apply elem_of_ipadd. by apply list_elem_of_In.
  - intros (m & ([m' info] & -> & Hin)%list_elem_of_fmap & Ha).
    exists (m', info). split; [by apply list_elem_of_In|].
    apply list_elem_of_In. by apply elem_of_ipadd.
Qed.

Lemma NoDup_resolved_addresses (macs : Dict.t mac_info) (arp : Dict.t string) :
  NoDup (Dict.keys macs) → NoDup (Dict.keys arp) →
  NoDup (resolved_addresses macs arp).
Proof.
  intros Hm Ha. unfold resolved_addresses, Dict.items.
  induction macs as [|[m info] macs IH]; simpl; [constructor|].
  apply NoDup_cons in Hm as [Hm1 Hm2]. apply NoDup_app.
  split; [by apply NoDup_ipadd|]. split; [|by apply IH].
  intros a Ha1 Ha2. apply elem_of_ipadd in Ha1.
  apply (elem_of_resolved_addresses macs arp a) in Ha2 as (m' & Hm' & Ha2).
  apply (elem_get_Some _ _ _ Ha) in Ha1, Ha2.
  assert (m = m') as -> by congruence. done.
Qed.

Lemma NoDup_keys_arp_index rows (d : Dict.t string) :
  NoDup (Dict.keys d) → NoDup (Dict.keys (arp_index rows d)).
Proof. apply NoDup_keys_comprehension. Qed.

Lemma router_arp_NoDup router vlans d idx :
  NoDup (Dict.keys d) → router_arp router vlans d = Ok idx →
  NoDup (Dict.keys idx).
Proof.
  revert d. induction vlans as [|v vlans IH]; intros d Hd; simpl.
  - by intros [= <-].
  - destruct (router (show_arp_command v)) as [vrfs|]; [|done]. simpl.
    apply IH. rewrite collect_vrfs_rows. by apply NoDup_keys_arp_index.
Qed.

End AddressFacts.

(** X11. Within one partition no address is collected twice: an ARP index
    maps an address to one MAC address, and a partition has one round per
    MAC address.  The addresses collected for a partition are those the
    index maps to a key of the partition.  [ip_addrs] can therefore hold an
    address twice only when both the leaf's table and the router's replies
    have it. *)
Theorem addresses_collected_once (leaf : leaf_replies) router local routed idx :
  local_macs (macadds (show_macs leaf)) (vlan_ints (interfaces leaf)) = Ok local →
  routed_macs (macadds (show_macs leaf)) (vlan_ints (interfaces leaf)) = Ok routed →
  router_arp router
    (router_vlans (leaf_vlans (show_vlans leaf)) (vlan_ints (interfaces leaf)))
    Dict.empty = Ok idx →
  NoDup (resolved_addresses local (arp_dict (leaf_arp leaf)))
  ∧ NoDup (resolved_addresses routed idx)
  ∧ (∀ a, a ∈ resolved_addresses local (arp_dict (leaf_arp leaf))
          ↔ ∃ m, m ∈ Dict.keys local
                 ∧ Dict.get (arp_dict (leaf_arp leaf)) a = Some m)
  ∧ (∀ a, a ∈ resolved_addresses routed idx
          ↔ ∃ m, m ∈ Dict.keys routed ∧ Dict.get idx a = Some m).
Proof.
  unfold local_macs, routed_macs. intros Hl Hr Hrt.
  pose proof (partition_NoDup _ _ _ Hl) as Hnl.
  pose proof (partition_NoDup _ _ _ Hr) as Hnr.
  pose proof (NoDup_keys_arp_dict (leaf_arp leaf)) as Hna.
  assert (NoDup (Dict.keys idx)) as Hni
    by (eapply router_arp_NoDup; [|exact Hrt]; constructor).
  split; [by apply NoDup_resolved_addresses|].
  split; [by apply NoDup_resolved_addresses|].
  split; intros a; rewrite elem_of_resolved_addresses;
    split; intros (m & Hm & Ha); exists m; (split; [done|]);
    (by apply elem_get_Some) || (by apply get_Some_elem).
Qed.

Lemma addresses_collected_once_witness :
  NoDup (resolved_addresses
           [("aabb.cc00.1122", {| info_interface := "Ethernet1"; info_vlanId := 10 |})]
           (arp_dict (leaf_arp Scenario.mixed_leaf)))
  ∧ NoDup (resolved_addresses
             [("aabb.cc00.3333",
               {| info_interface := "Ethernet3"; info_vlanId := 30 |})]
             [("10.0.30.7", "aabb.cc00.3333")]).
Proof.
  destruct (addresses_collected_once Scenario.mixed_leaf
    (λ _, Ok [("prod", {| dynamicEntries := 1;
                          ipV4Neighbors :=
                            [Scenario.arp "10.0.30.7" "aabb.cc00.3333"] |})])
    [("aabb.cc00.1122", {| info_interface := "Ethernet1"; info_vlanId := 10 |})]
    [("aabb.cc00.3333", {| info_interface := "Ethernet3"; info_vlanId := 30 |})]
    [("10.0.30.7", "aabb.cc00.3333")]) as (H1 & H2 & _).
  - vm_compute. reflexivity.
  - vm_compute. reflexivity.
  - vm_compute. reflexivity.
  - by split.
Defined.

(** X12. The format expression uses the first six colon-delimited groups
    and ignores the rest: two MAC address texts that agree on their first
    six groups get the same key. *)
Theorem format_address_ignores_extra_groups (gs extra : list string) :
  Forall (λ g, PyStr.has_char ":" g = false) (gs ++ extra) →
  length gs = 6%nat →
  format_address (PyStr.join ":" (gs ++ extra)) = format_address (PyStr.join ":" gs)
  ∧ ∃ k, format_address (PyStr.join ":" gs) = Ok k.
Proof.
  intros Hall Hlen. apply Forall_app in Hall as Hgs. destruct Hgs as [Hgs _].
  do 6 (destruct gs as [|? gs]; [done|]). destruct gs; [|done].
  unfold format_address. rewrite !split_join by done. simpl. eauto.
Qed.

Lemma format_address_ignores_extra_groups_witness :
  format_address "aa:bb:cc:00:11:22:33:44" = format_address "aa:bb:cc:00:11:22"
  ∧ ∃ k, format_address "aa:bb:cc:00:11:22" = Ok k.
Proof.
  refine (format_address_ignores_extra_groups
            ["aa"; "bb"; "cc"; "00"; "11"; "22"] ["33"; "44"] _ _).
  - repeat constructor.
  - reflexivity.
Defined.

(** X13. The ARP index of a neighbor table has one entry per address of
    the table: its keys are distinct, they are the addresses of the rows,
    each entry pairs an address with the MAC address of a row bearing it,
    and there are no more entries than rows. *)
Theorem arp_dict_entries (rows : list neighbor) :
  NoDup (Dict.keys (arp_dict rows))
  ∧ (∀ a, a ∈ Dict.keys (arp_dict rows) ↔ ∃ r, r ∈ rows ∧ address r = a)
  ∧ (∀ a m, (a, m) ∈ Dict.items (arp_dict rows) →
            ∃ r, r ∈ rows ∧ address r = a ∧ hwAddress r = m)
  ∧ (length (arp_dict rows) ≤ length rows)%nat.
Proof.
  split; [apply NoDup_keys_arp_dict|]. split; [|split].
  - intros a. rewrite <- get_is_Some, get_arp_dict. split.
    + intros [m Hm]. destruct (last_row a rows) as [r|] eqn:Hr; [|done].
      exists r. by apply last_row_elem.
    + intros (r & Hin & Ha). unfold last_row.
      destruct (List.find _ _) as [r'|] eqn:Hf; [by eexists|].
      assert (In r (rev rows)) as Hin'
        by (rewrite <- in_rev; by apply list_elem_of_In).
      apply (find_none _ _ Hf) in Hin'. simpl in Hin'.
      by rewrite Ha, String.eqb_refl in Hin'.
  - intros a m Hin. apply elem_get_Some in Hin; [|apply NoDup_keys_arp_dict].
    rewrite get_arp_dict in Hin.
    destruct (last_row a rows) as [r|] eqn:Hr; [|done].
    injection Hin as <-. exists r. apply last_row_elem in Hr as [? ?]. done.
  - unfold arp_dict, arp_index, Dict.comprehension.
    assert (∀ (d : Dict.t string) k v,
              (length (Dict.set k v d) ≤ S (length d))%nat) as Hset.
    { intros d k v. induction d as [|[k' v'] d IH]; simpl; [lia|].
      destruct (String.eqb k k'); simpl; lia. }
    assert (∀ d : Dict.t string,
              (length (fold_left (λ d x, Dict.set (address x) (hwAddress x) d)
                         rows d) ≤ length d + length rows)%nat) as Hfold.
    { induction rows as [|r rows IH]; intros d; simpl; [lia|].
      specialize (IH (Dict.set (address r) (hwAddress r) d)).
      specialize (Hset d (address r) (hwAddress r)). lia. }
    apply (Hfold Dict.empty).
Qed.

(** ** The sort key *)

Section Ipv4Facts.

(** every text of one to three digits that is read as an octet is the
    decimal text of its value, which is at most 255 *)
Lemma octet_table :
  forallb (λ o, match IPv4.parse_octet o with
                | Ok n => String.eqb o (pretty (Z.of_N n)) && (n <=? 255)%N
                | Raise _ => true
                end)
    (digit_strings 1 ++ digit_strings 2 ++ digit_strings 3) = true.
Proof. vm_compute. reflexivity. Qed.

Lemma parse_octet_digits o n :
  IPv4.parse_octet o = Ok n →
  IPv4.all_digits o = true ∧ (1 ≤ String.length o ≤ 3)%nat.
Proof.
  unfold IPv4.parse_octet. destruct o as [|c o]; [done|].
  destruct (IPv4.all_digits (String c o)) eqn:Hd; [|done]. simpl negb.
  destruct (Nat.ltb_spec 3 (String.length (String c o))) as [|Hlen]; [done|].
  intros _. split; [done|]. simpl in *. lia.
Qed.

Lemma parse_octet_canonical o n :
  IPv4.parse_octet o = Ok n → o = pretty (Z.of_N n) ∧ (n ≤ 255)%N.
Proof.
  intros Hp. destruct (parse_octet_digits o n Hp) as [Hd Hlen].
  assert (o ∈ digit_strings 1 ++ digit_strings 2 ++ digit_strings 3) as Hin.
  { apply all_digits_strings in Hd. rewrite !elem_of_app.
    destruct (String.length o) as [|[|[|[|?]]]]; try lia; auto. }
  pose proof octet_table as Ht. rewrite forallb_forall in Ht.
  specialize (Ht o ltac:(by apply list_elem_of_In)). rewrite Hp in Ht.
  apply andb_true_iff in Ht as [He Hle].
  apply String.eqb_eq in He. apply N.leb_le in Hle. done.
Qed.

Lemma split_nonempty sep s : PyStr.split sep s ≠ [].
Proof.
  destruct s as [|c s]; simpl; [done|].
  destruct (Ascii.eqb c sep); [done|]. by destruct (PyStr.split sep s).
Qed.

Lemma join_cons_cons sep x y l :
  PyStr.join sep (x :: y :: l) = x +:+ sep +:+ PyStr.join sep (y :: l).
Proof. reflexivity. Qed.

Lemma join_split sep s : PyStr.join (String sep "") (PyStr.split sep s) = s.
Proof.
  induction s as [|c s IH]; [done|]. simpl PyStr.split.
  pose proof (split_nonempty sep s) as Hne.
  destruct (PyStr.split sep s) as [|h t]; [done|].
  destruct (Ascii.eqb_spec c sep) as [->|_].
  - rewrite join_cons_cons, IH. done.
  - destruct t as [|y t].
    + simpl in *. by rewrite IH.
    + rewrite join_cons_cons. rewrite join_cons_cons in IH.
      rewrite append_cons. by rewrite IH.
Qed.

Lemma ip_int_from_string_octets s n :
  IPv4.ip_int_from_string s = Ok n →
  ∃ a b c d : N,
    s = PyStr.join "." [pretty (Z.of_N a); pretty (Z.of_N b);
                        pretty (Z.of_N c); pretty (Z.of_N d)]
    ∧ (a ≤ 255 ∧ b ≤ 255 ∧ c ≤ 255 ∧ d ≤ 255)%N
    ∧ n = (((a * 256 + b) * 256 + c) * 256 + d)%N.
Proof.
  unfold IPv4.ip_int_from_string. intros H.
  pose proof (join_split "." s) as Hs.
  destruct (PyStr.split "." s) as [|o1 [|o2 [|o3 [|o4 [|? ?]]]]]; try done.
  destruct (IPv4.parse_octet o1) as [a|] eqn:H1; [|done].
  destruct (IPv4.parse_octet o2) as [b|] eqn:H2; [|done].
  destruct (IPv4.parse_octet o3) as [c|] eqn:H3; [|done].
  destruct (IPv4.parse_octet o4) as [d|] eqn:H4; [|done].
  simpl in H. injection H as <-.
  apply parse_octet_canonical in H1 as [-> ?], H2 as [-> ?],
    H3 as [-> ?], H4 as [-> ?].
  exists a, b, c, d. by rewrite Hs.
Qed.

Lemma ip_int_from_string_inj a b n :
  IPv4.ip_int_from_string a = Ok n → IPv4.ip_int_from_string b = Ok n → a = b.
Proof.
  intros (a1 & a2 & a3 & a4 & -> & Ha & Hn)%ip_int_from_string_octets
         (b1 & b2 & b3 & b4 & -> & Hb & Hm)%ip_int_from_string_octets.
  assert (a1 = b1 ∧ a2 = b2 ∧ a3 = b3 ∧ a4 = b4) as (-> & -> & -> & ->) by lia.
  done.
Qed.

Lemma sorted_ips_parsed l s :
  sorted_ips l = Ok s → Forall (λ a, ∃ n, IPv4.ip_int_from_string a = Ok n) l.
Proof.
  unfold sorted_ips, Sorted.sorted.
  destruct (Sorted.decorate _ l) as [dl|] eqn:Hd; [|done]. intros _.
  apply decorate_spec in Hd as [<- Hk].
  apply Forall_fmap. eapply Forall_impl; [exact Hk|].
  intros d Hd. simpl. by exists d.1.
Qed.

Lemma sorted_ips_raises l x : sorted_ips l = Raise x → x = AddressValueError.
Proof.
  unfold sorted_ips, Sorted.sorted.
  destruct (Sorted.decorate _ l) as [dl|y] eqn:Hd; [done|]. simpl.
  intros [= <-]. apply decorate_raises in Hd as (a & _ & Ha).
  by apply ip_int_from_string_raises in Ha.
Qed.

End Ipv4Facts.

(** X14. The sort key reads a dotted quad in one way only.  A text that is
    read as an address is the four octets of its value, each at most 255,
    written in decimal without leading zeros and joined by dots; the value
    is below 2^32; and two texts with the same value are the same text. *)
Theorem ip_int_from_string_canonical (s : string) (n : N) :
  IPv4.ip_int_from_string s = Ok n →
  (n < 2 ^ 32)%N
  ∧ s = PyStr.join "." [pretty (Z.of_N (n / 2 ^ 24));
                        pretty (Z.of_N (n / 2 ^ 16 mod 256));
                        pretty (Z.of_N (n / 2 ^ 8 mod 256));
                        pretty (Z.of_N (n mod 256))]
  ∧ ∀ s', IPv4.ip_int_from_string s' = Ok n → s' = s.
Proof.
  intros Hs. split; [|split].
  - apply ip_int_from_string_octets in Hs as (a & b & c & d & _ & Hb & ->). lia.
  - apply ip_int_from_string_octets in Hs as (a & b & c & d & -> & Hb & ->).
    assert ((((a * 256 + b) * 256 + c) * 256 + d) / 2 ^ 24 = a)%N as ->.
    { symmetry. apply (N.div_unique _ _ _ ((b * 256 + c) * 256 + d)); lia. }
    assert ((((a * 256 + b) * 256 + c) * 256 + d) / 2 ^ 16 mod 256 = b)%N as ->.
    { assert ((((a * 256 + b) * 256 + c) * 256 + d) / 2 ^ 16 = a * 256 + b)%N as ->.
      { symmetry. apply (N.div_unique _ _ _ (c * 256 + d)); lia. }
      symmetry. apply (N.mod_unique _ _ a); lia. }
    assert ((((a * 256 + b) * 256 + c) * 256 + d) / 2 ^ 8 mod 256 = c)%N as ->.
    { assert ((((a * 256 + b) * 256 + c) * 256 + d) / 2 ^ 8
              = (a * 256 + b) * 256 + c)%N as ->.
      { symmetry. apply (N.div_unique _ _ _ d); lia. }
      symmetry. apply (N.mod_unique _ _ (a * 256 + b)); lia. }
    assert ((((a * 256 + b) * 256 + c) * 256 + d) mod 256 = d)%N as ->.
    { symmetry. apply (N.mod_unique _ _ ((a * 256 + b) * 256 + c)); lia. }
    done.
  - intros s' Hs'. by eapply ip_int_from_string_inj.
Qed.

Lemma ip_int_from_string_canonical_witness :
  (167772165 < 2 ^ 32)%N
  ∧ "10.0.0.5" = PyStr.join "." [pretty (Z.of_N (167772165 / 2 ^ 24));
                                 pretty (Z.of_N (167772165 / 2 ^ 16 mod 256));
                                 pretty (Z.of_N (167772165 / 2 ^ 8 mod 256));
                                 pretty (Z.of_N (167772165 mod 256))]
  ∧ ∀ s', IPv4.ip_int_from_string s' = Ok 167772165%N → s' = "10.0.0.5".
Proof.
  refine (ip_int_from_string_canonical "10.0.0.5" 167772165 _).
  vm_compute. reflexivity.
Defined.

(** X15. The order of the resolved-name report does not depend on the
    order in which the addresses were collected: two lists with the same
    addresses, each as many times, sort to the same list, or both fail to
    sort. *)
Theorem sorted_ips_order_independent (l1 l2 : list string) :
  l1 ≡ₚ l2 → sorted_ips l1 = sorted_ips l2.
Proof.
  intros Hp. destruct (sorted_ips l1) as [s1|x] eqn:H1.
  - apply sorted_ips_parsed in H1 as Hall. rewrite Hp in Hall.
    destruct (decorate_total _ _ Hall) as [dl Hd].
    assert (sorted_ips l2 = Ok (map snd (Sorted.sort dl))) as H2.
    { unfold sorted_ips, Sorted.sorted. by rewrite Hd. }
    rewrite H2. f_equal.
    apply sorted_spec in H1 as [Hp1 Hs1]. apply sorted_spec in H2 as [Hp2 Hs2].
    eapply StronglySorted_unique_strong; [|exact Hs1|exact Hs2|].
    + intros a b _ _ (p & q & Ha & Hb & Hle) (q' & p' & Hb' & Ha' & Hle').
      rewrite Ha in Ha'. rewrite Hb in Hb'.
      injection Ha' as <-. injection Hb' as <-.
      assert (p = q) as -> by lia.
      by eapply ip_int_from_string_inj.
    + by rewrite <- Hp1, Hp, Hp2.
  - apply sorted_ips_raises in H1 as Hx. subst x.
    destruct (sorted_ips l2) as [s2|y] eqn:H2.
    + apply sorted_ips_parsed in H2 as Hall. rewrite <- Hp in Hall.
      destruct (decorate_total _ _ Hall) as [dl Hd].
      unfold sorted_ips, Sorted.sorted in H1. by rewrite Hd in H1.
    + by apply sorted_ips_raises in H2 as ->.
Qed.

Lemma sorted_ips_order_independent_witness :
  sorted_ips ["10.0.0.20"; "10.0.0.3"; "10.0.0.100"]
  = sorted_ips ["10.0.0.100"; "10.0.0.20"; "10.0.0.3"].
Proof.
  refine (sorted_ips_order_independent _ _ _).
  apply (bool_decide_unpack _). vm_compute. exact I.
Defined.
